(** * dbgen: synthetic customer and purchase generators

    A shallow embedding of [scripts/gerar_compras.py],
    [scripts/gerar_clientes.py] and the in-memory generators of [app.py],
    followed by the properties of the purchase allocator, the branch pool,
    the e-mail derivation and the request validation.

    Conventions of the embedding:
    - a Python [int] is a [Z]; a Python [str] is the list of its code points;
    - a Python [float] amount is an exact rational ([Q]): [uniform] and
      [round] are computed without binary rounding error, and there is no
      NaN and no infinity;
    - a [datetime] at midnight is its day ordinal ([Z]);
    - a generator object ([random.Random], the [random] module, a [Faker]
      instance) is an explicit state threaded through the calls;
    - a raised exception is the left summand of the result. *)

From Stdlib Require Import String Ascii ZArith QArith Qround List Lia Bool.
From Stdlib Require Import DecimalN Lqa.
Import ListNotations.

Local Open Scope Z_scope.

(* ================================================================= *)
(** ** Python built-ins used by the scripts *)

Module Py.

(** A [str]: the sequence of its Unicode code points. *)
Definition str := list N.

(** An ASCII literal. *)
Definition lit (s : string) : str :=
  map N_of_ascii (list_ascii_of_string s).

Definition str_eqb (a b : str) : bool :=
  if list_eq_dec N.eq_dec a b then true else false.

(** [x in xs] for a list or set of strings. *)
Definition mem (x : str) (xs : list str) : bool :=
  existsb (str_eqb x) xs.

Definition len {A} (l : list A) : Z := Z.of_nat (length l).

(** [range(n)] and [range(a, b)]. *)
Definition range (n : Z) : list Z :=
  map Z.of_nat (seq 0 (Z.to_nat n)).

Definition range2 (a b : Z) : list Z :=
  map (fun k => a + Z.of_nat k) (seq 0 (Z.to_nat (b - a))).

(** [enumerate(xs)]. *)
Definition enumerate {A} (xs : list A) : list (Z * A) :=
  combine (range (len xs)) xs.

(** Exceptions raised on the modelled paths.  [HTTPException] carries
    the status code and the detail message. *)
Inductive exn :=
| ValueError (msg : str)
| IndexError
| ZeroDivisionError
| HTTPException (status_code : Z) (detail : str).

(** [l[k]]: negative indices count from the end, anything else out of
    range raises [IndexError]. *)
Definition getitem {A} (l : list A) (k : Z) : exn + A :=
  let k' := if k <? 0 then k + len l else k in
  if k' <? 0 then inl IndexError
  else match nth_error l (Z.to_nat k') with
       | Some x => inr x
       | None => inl IndexError
       end.

(** [a % b] on integers. *)
Definition mod_ (a b : Z) : exn + Z :=
  if b =? 0 then inl ZeroDivisionError else inr (a mod b).

(** *** Integer formatting *)

Fixpoint str_of_uint (d : Decimal.uint) : str :=
  match d with
  | Decimal.Nil => []
  | Decimal.D0 d => 48%N :: str_of_uint d
  | Decimal.D1 d => 49%N :: str_of_uint d
  | Decimal.D2 d => 50%N :: str_of_uint d
  | Decimal.D3 d => 51%N :: str_of_uint d
  | Decimal.D4 d => 52%N :: str_of_uint d
  | Decimal.D5 d => 53%N :: str_of_uint d
  | Decimal.D6 d => 54%N :: str_of_uint d
  | Decimal.D7 d => 55%N :: str_of_uint d
  | Decimal.D8 d => 56%N :: str_of_uint d
  | Decimal.D9 d => 57%N :: str_of_uint d
  end.

Definition zfill (width : nat) (s : str) : str :=
  repeat 48%N (width - length s) ++ s.

(** [f"{i:0Wd}"]: decimal, zero-padded to at least [W] characters, the
    sign counted in the width. *)
Definition format_d (width : nat) (i : Z) : str :=
  let digits := str_of_uint (N.to_uint (Z.abs_N i)) in
  if i <? 0 then 45%N :: zfill (width - 1) digits else zfill width digits.

(** *** Whitespace, [split], [strip], [replace] *)

(** [str.isspace] on one code point. *)
Definition isspace (c : N) : bool :=
  ((9 <=? c) && (c <=? 13) || (28 <=? c) && (c <=? 32)
   || (c =? 133) || (c =? 160) || (c =? 5760)
   || (8192 <=? c) && (c <=? 8202)
   || (c =? 8232) || (c =? 8233) || (c =? 8239) || (c =? 8287)
   || (c =? 12288))%N.

(** [s.split()]: the maximal runs of non-whitespace. [cur] is the run
    being read. *)
Fixpoint split_from (cur : str) (s : str) : list str :=
  match s with
  | [] => match cur with [] => [] | _ => [cur] end
  | c :: s' =>
      if isspace c
      then match cur with
           | [] => split_from [] s'
           | _ => cur :: split_from [] s'
           end
      else split_from (cur ++ [c]) s'
  end.

Definition split (s : str) : list str := split_from [] s.

Fixpoint lstrip_by (p : N -> bool) (s : str) : str :=
  match s with
  | c :: s' => if p c then lstrip_by p s' else s
  | [] => []
  end.

Definition strip_by (p : N -> bool) (s : str) : str :=
  rev (lstrip_by p (rev (lstrip_by p s))).

(** [s.strip()] and [s.strip(chars)]. *)
Definition strip (s : str) : str := strip_by isspace s.

Definition strip_chars (chars : str) (s : str) : str :=
  strip_by (fun c => existsb (N.eqb c) chars) s.

Fixpoint startswith (p s : str) : bool :=
  match p, s with
  | [], _ => true
  | a :: p', b :: s' => (a =? b)%N && startswith p' s'
  | _ :: _, [] => false
  end.

(** [s.replace(old, new)]: leftmost non-overlapping occurrences.  The
    scan consumes at least one character per step, so [length s] steps
    suffice. *)
Fixpoint replace_scan (steps : nat) (old new s : str) : str :=
  match steps, s with
  | S k, c :: s' =>
      if startswith old s
      then new ++ replace_scan k old new (skipn (length old) s)
      else c :: replace_scan k old new s'
  | _, _ => s
  end.

Definition replace (old new s : str) : str :=
  match old with
  | [] => new ++ flat_map (fun c => c :: new) s
  | _ => replace_scan (length s) old new s
  end.

(** *** [round(x, ndigits)]

    Round half to even at [ndigits] decimals. *)
Definition round_half_even (x : Q) : Z :=
  let f := Qfloor x in
  match (x - inject_Z f ?= 1 # 2)%Q with
  | Lt => f
  | Gt => f + 1
  | Eq => if Z.even f then f else f + 1
  end.

Definition round (x : Q) (ndigits : nat) : Q :=
  let scale := Z.to_pos (10 ^ Z.of_nat ndigits) in
  (round_half_even (x * inject_Z (Z.pos scale)) # scale)%Q.

(** [a < b] on floats. *)
Definition Qltb (a b : Q) : bool := negb (Qle_bool b a).

End Py.

(* ================================================================= *)
(** ** Results, exceptions and generator state *)

Module Eff.
Import Py.

(** A computation over a mutable object of type [S]: it raises, or
    returns a value and the object's new state. *)
Definition M (S A : Type) : Type := S -> exn + (A * S).

Definition ret {S A} (a : A) : M S A := fun s => inr (a, s).

Definition raise {S A} (e : exn) : M S A := fun _ => inl e.

Definition bind {S A B} (m : M S A) (k : A -> M S B) : M S B :=
  fun s => match m s with
           | inl e => inl e
           | inr (a, s') => k a s'
           end.

(** A partial built-in used inside a computation. *)
Definition lift {S A} (r : exn + A) : M S A :=
  fun s => match r with inl e => inl e | inr a => inr (a, s) end.

(** [for x in xs: body], with the variables the body updates as [acc]. *)
Fixpoint for_each {S X A} (xs : list X) (body : X -> A -> M S A) (acc : A)
  : M S A :=
  match xs with
  | [] => ret acc
  | x :: xs' => bind (body x acc) (for_each xs' body)
  end.

(** What the caller of a computation observes: the value or the
    exception. *)
Definition outcome {S A} (r : exn + (A * S)) : exn + A :=
  match r with inl e => inl e | inr (a, _) => inr a end.

Module Notations.
Notation "x <- c ;; k" := (bind c (fun x => k))
  (at level 61, c at next level, right associativity).
Notation "' p <- c ;; k" := (bind c (fun x => let 'p := x in k))
  (at level 61, p pattern, c at next level, right associativity).
End Notations.

End Eff.

(* ================================================================= *)
(** ** The [random] module *)

Module Rand.
Import Py Eff Eff.Notations.

(** The primitives of a [random.Random] object: construction from a
    seed, [random()] in the half-open unit interval and [_randbelow(n)]
    below a positive [n]. *)
Class RandomGen := {
  rng : Type;
  Random : Z -> rng;
  random : rng -> Q * rng;
  randbelow : Z -> rng -> Z * rng;
  random_unit : forall s, (0 <= fst (random s))%Q /\ (fst (random s) < 1)%Q;
  randbelow_range : forall n s, 0 < n -> 0 <= fst (randbelow n s) < n
}.

Section Derived.
Context {G : RandomGen}.

(** [rng.uniform(a, b)] is [a + (b - a) * self.random()], here in exact
    arithmetic: the doubles of the source round the result and overflow
    to [inf] for bounds near the largest double, which this embedding does
    not show; no bound on an amount is claimed from it. *)
Definition uniform (a b : Q) : M rng Q :=
  fun s => let (r, s') := random s in inr ((a + (b - a) * r)%Q, s').

(** [rng.randrange(start, stop)]. *)
Definition randrange (start stop : Z) : M rng Z :=
  let width := stop - start in
  if 0 <? width
  then fun s => let (k, s') := randbelow width s in inr (start + k, s')
  else raise (ValueError (lit "empty range for randrange()")).

(** [rng.randint(a, b)] is [self.randrange(a, b + 1)]. *)
Definition randint (a b : Z) : M rng Z := randrange a (b + 1).

(** [rng.choice(seq)]. *)
Definition choice {A} (seq : list A) : M rng A :=
  match seq with
  | [] => raise IndexError
  | _ => fun s => let (k, s') := randbelow (len seq) s in
                  match getitem seq k with
                  | inl e => inl e
                  | inr x => inr (x, s')
                  end
  end.
End Derived.

(** A small generator to run the model on: the state is a counter, each
    draw reads it and advances it by one. *)
#[refine] Instance CounterGen : RandomGen := {|
  rng := Z;
  Random := fun seed => seed;
  random := fun s => ((s mod 10 # 10)%Q, s + 1);
  randbelow := fun n s => (s mod n, s + 1)
|}.
Proof.
  - intros s; simpl. pose proof (Z.mod_pos_bound s 10 eq_refl) as H.
    unfold Qle, Qlt; simpl. lia.
  - intros n s Hn; simpl. apply Z.mod_pos_bound; exact Hn.
Defined.

End Rand.

(** The part of [datetime] the scripts use: parsing and printing a
    calendar date in the format [%Y-%m-%d].  [strptime] is [None] where
    Python raises [ValueError]. *)
Class Calendar := {
  strptime : Py.str -> option Z;
  strftime : Z -> Py.str
}.

(* ================================================================= *)
(** ** scripts/gerar_compras.py *)

Module GerarCompras.
Import Py Eff Eff.Notations Rand.

(** A purchase: [(codigo_cliente, data_iso, valor_float, codigo_filial)]. *)
Definition compra : Type := str * str * Q * str.

Definition cod_of (r : compra) : str := let '(c, _, _, _) := r in c.
Definition data_of (r : compra) : str := let '(_, d, _, _) := r in d.
Definition valor_of (r : compra) : Q := let '(_, _, v, _) := r in v.
Definition filial_of (r : compra) : str := let '(_, _, _, f) := r in f.

(** [gerar_filiais], lines 74-77. *)
Definition gerar_filiais (qtd : Z) : list str :=
  let qtd := Z.max 1 qtd in
  map (fun i => lit "F" ++ format_d 3 i) (range2 1 (qtd + 1)).

Section WithGenerator.
Context {G : RandomGen} {C : Calendar}.

Definition msg_fim_anterior : str :=
  lit "Data fim " ++ [233%N] ++ lit " anterior " ++ [224%N]
    ++ lit " data in" ++ [237%N] ++ lit "cio.".

(** [gerar_datas], lines 59-71. *)
Definition gerar_datas (n : Z) (inicio fim : Z) : M rng (list str) :=
  if fim <? inicio then raise (ValueError msg_fim_anterior)
  else
    let delta := fim - inicio in
    let delta := if delta <? 0 then 0 else delta in
    for_each (range n)
      (fun _ datas =>
         offset <- (if 0 <? delta then randint 0 delta else ret 0) ;;
         let d := inicio + offset in
         ret (datas ++ [strftime d]))
      [].

(** [escolher], lines 80-81. *)
Definition escolher (iterable : list str) : M rng str :=
  choice iterable.

(** [montar_compras], lines 84-121. *)
Definition montar_compras (codigos_clientes : list str) (total_linhas : Z)
    (valor_min valor_max : Q) (datas filiais : list str)
  : M rng (list compra) :=
  if Qltb valor_max valor_min
  then raise (ValueError (lit "valor_max deve ser >= valor_min"))
  else
    let total_linhas := Z.max total_linhas (len codigos_clientes) in
    rows <- for_each (enumerate codigos_clientes)
              (fun '(idx, cod) rows =>
                 k <- lift (mod_ idx (len datas)) ;;
                 data <- lift (getitem datas k) ;;
                 u <- uniform valor_min valor_max ;;
                 let valor := round u 2 in
                 filial <- escolher filiais ;;
                 ret (rows ++ [(cod, data, valor, filial)]))
              [] ;;
    let faltantes := total_linhas - len rows in
    for_each (range faltantes)
      (fun i rows =>
         cod <- escolher codigos_clientes ;;
         k <- lift (mod_ (len rows + i) (len datas)) ;;
         data <- lift (getitem datas k) ;;
         u <- uniform valor_min valor_max ;;
         let valor := round u 2 in
         filial <- escolher filiais ;;
         ret (rows ++ [(cod, data, valor, filial)]))
      rows.

End WithGenerator.

End GerarCompras.

(** The Unicode tables behind [str.lower], [unicodedata.normalize("NFD", _)]
    and [unicodedata.category]. *)
Class Unicode := {
  lower : Py.str -> Py.str;
  normalize_NFD : Py.str -> Py.str;
  category : N -> string
}.

(** The data providers of the client generator: [Faker.name] draws from
    the generator of its [Faker] instance, [CPF().generate(mask=True)] of
    validate-docbr from the [random] module. *)
Class Providers {G : Rand.RandomGen} := {
  faker_name : Rand.rng -> Py.str * Rand.rng;
  cpf_generate_mask : Rand.rng -> Py.str * Rand.rng
}.

(* ================================================================= *)
(** ** scripts/gerar_clientes.py *)

Module GerarClientes.
Import Py Eff Eff.Notations Rand.

Definition DDDS : list Z :=
  [11; 12; 13; 14; 15; 16; 17; 18; 19;
   21; 22; 24; 27; 28;
   31; 32; 33; 34; 35; 37; 38;
   41; 42; 43; 44; 45; 46; 47; 48; 49;
   51; 53; 54; 55;
   61; 62; 63; 64; 65; 66; 67; 68; 69;
   71; 73; 74; 75; 77; 79;
   81; 82; 83; 84; 85; 86; 87; 88; 89;
   91; 92; 93; 94; 95; 96; 97; 98; 99].

(** [gerar_codigo], lines 86-88. *)
Definition gerar_codigo (i : Z) : str := lit "C" ++ format_d 5 i.

Section WithUnicode.
Context {U : Unicode}.

(** [remove_accents], lines 42-46. *)
Definition remove_accents (s : str) : str :=
  filter (fun c => negb (String.eqb (category c) "Mn")) (normalize_NFD s).

Definition preposicoes : list str :=
  [lit " da "; lit " de "; lit " do "; lit " dos "; lit " das "].

Definition conectores : list str :=
  [lit "da"; lit "de"; lit "do"; lit "dos"; lit "das"].

Definition permitido : str := lit "abcdefghijklmnopqrstuvwxyz0123456789.-".

(** [gerar_email_local], lines 70-83. *)
Definition gerar_email_local (nome : str) : str :=
  let base := remove_accents (lower nome) in
  let base := fold_left (fun base p => replace p (lit " ") base)
                preposicoes base in
  let partes := filter (fun p => negb (mem p conectores)) (split base) in
  match partes with
  | [] => lit "cliente"
  | _ =>
      let local :=
        if 2 <=? len partes
        then hd [] partes ++ lit "." ++ last partes []
        else hd [] partes in
      let local :=
        strip_chars (lit ".")
          (filter (fun ch => existsb (N.eqb ch) permitido) local) in
      match local with
      | [] => lit "cliente"
      | _ => local
      end
  end.
End WithUnicode.

Section WithGenerator.
Context {G : RandomGen} {P : Providers}.

(** [gerar_cpf], lines 49-51; draws from the [random] module. *)
Definition gerar_cpf : M rng str :=
  fun g => inr (cpf_generate_mask g).

Definition titulos : list str :=
  [lit "Sr."; lit "Sra."; lit "Sr"; lit "Sra"; lit "Dr."; lit "Dra.";
   lit "Dr"; lit "Dra"; lit "Prof."; lit "Prof"].

(** [gerar_nome], lines 54-59; draws from the generator of [fake]. *)
Definition gerar_nome : M rng str :=
  fun fake =>
    let (nome, fake') := faker_name fake in
    let nome :=
      fold_left (fun nome t => replace t [] (replace (t ++ lit " ") [] nome))
        titulos nome in
    inr (strip nome, fake').

(** [gerar_celular], lines 62-67; draws from the [random] module. *)
Definition gerar_celular : M rng str :=
  ddd <- choice DDDS ;;
  primeira <- randint 0 9999 ;;
  segunda <- randint 0 9999 ;;
  ret (lit "(" ++ format_d 2 ddd ++ lit ") 9" ++ format_d 4 primeira
         ++ lit "-" ++ format_d 4 segunda).
End WithGenerator.

End GerarClientes.

(* ================================================================= *)
(** ** app.py *)

Module App.
Import Py Eff Eff.Notations Rand GerarCompras GerarClientes.

(** What [csv.DictReader] exposes of an upload: the field names ([None]
    for an empty file) and one dict per record ([None] for a field the
    record is too short to have). *)
Definition dict : Type := list (str * option str).

Record DictReader := {
  fieldnames : option (list str);
  records : list dict
}.

Fixpoint get (d : dict) (k : str) : option (option str) :=
  match d with
  | [] => None
  | (k', v) :: d' => if str_eqb k k' then Some v else get d' k
  end.

Definition candidatos : list str :=
  [lit "C" ++ [243%N] ++ lit "digoCliente"; lit "CodigoCliente";
   lit "Codigo"; lit "C" ++ [243%N] ++ lit "digo"].

(** [_parse_client_codes_from_upload], lines 126-148, from the reader
    on. *)
Definition _parse_client_codes_from_upload (reader : DictReader)
  : exn + list str :=
  let field :=
    find (fun cand =>
            match fieldnames reader with
            | Some ((_ :: _) as names) => mem cand names
            | _ => false
            end) candidatos in
  match field with
  | None =>
      inl (HTTPException 400
             (lit "CSV must contain a 'C" ++ [243%N] ++ lit "digoCliente' column"))
  | Some field =>
      let codes :=
        fold_left
          (fun codes row =>
             let code :=
               strip (match get row field with
                      | Some (Some v) => v
                      | _ => []
                      end) in
             match code with
             | [] => codes
             | _ => codes ++ [code]
             end)
          (records reader) [] in
      match codes with
      | [] => inl (HTTPException 400 (lit "No client codes found in CSV"))
      | _ => inr codes
      end
  end.

Section WithEnvironment.
Context {G : RandomGen} {C : Calendar} {U : Unicode} {P : Providers}.

(** The limits read from the environment when the module is loaded. *)
Variable MAX_CLIENTS : Z.
Variable MAX_PURCHASES : Z.

(** The generators that live in the interpreter, outside any request:
    the [random] module's hidden instance and the instance shared by
    unseeded [Faker] objects. *)
Record process := {
  global_random : rng;
  faker_random : rng
}.

(** Runs a computation on a request-local generator. *)
Definition with_local {A} (r : rng) (m : M rng A) : M process (A * rng) :=
  fun p => match m r with
           | inl e => inl e
           | inr (a, r') => inr ((a, r'), p)
           end.

(** [_in_memory_purchases], lines 151-195: the rows handed to the CSV
    and XLSX writers. *)
Definition _in_memory_purchases (clients_csv : DictReader) (rows_total : Z)
    (valor_min valor_max : Q) (inicio_str fim_str : str)
    (filiais_qtd : Z) (seed : Z) : M process (list compra) :=
  if rows_total <? 1
  then raise (HTTPException 400 (lit "rows must be >= 1"))
  else if MAX_PURCHASES <? rows_total
  then raise (HTTPException 400
                (lit "rows exceeds limit (" ++ format_d 0 MAX_PURCHASES ++ lit ")"))
  else if Qltb valor_max valor_min
  then raise (HTTPException 400 (lit "valor_max must be >= valor_min"))
  else
    match strptime inicio_str, strptime fim_str with
    | Some inicio, Some fim =>
        if fim <? inicio
        then raise (HTTPException 400 (lit "fim earlier than inicio"))
        else
          codigos_clientes <- lift (_parse_client_codes_from_upload clients_csv) ;;
          let rng0 := Random seed in
          '(datas, rng1) <- with_local rng0
               (gerar_datas (Z.max rows_total (len codigos_clientes)) inicio fim) ;;
          let filiais := gerar_filiais filiais_qtd in
          '(rows, _) <- with_local rng1
               (montar_compras codigos_clientes rows_total valor_min valor_max
                  datas filiais) ;;
          ret rows
    | _, _ =>
        raise (HTTPException 400 (lit "Invalid date format. Use YYYY-MM-DD"))
    end.

(** *** The client generator

    Its two [while] loops have no bound in the source: the model runs
    them for at most [fuel] iterations and is [None] beyond. The state
    is the pair of the [random] module's generator and the generator
    of the [fake] instance. *)
Definition MF (A : Type) : Type :=
  rng * rng -> option (exn + (A * (rng * rng))).

Definition retF {A} (a : A) : MF A := fun st => Some (inr (a, st)).

Definition bindF {A B} (m : MF A) (k : A -> MF B) : MF B :=
  fun st => match m st with
            | None => None
            | Some (inl e) => Some (inl e)
            | Some (inr (a, st')) => k a st'
            end.

(** A call that draws from the [random] module. *)
Definition on_random {A} (m : M rng A) : MF A :=
  fun '(g, fake) => match m g with
                    | inl e => Some (inl e)
                    | inr (a, g') => Some (inr (a, (g', fake)))
                    end.

(** A call that draws from the [fake] instance. *)
Definition on_fake {A} (m : M rng A) : MF A :=
  fun '(g, fake) => match m fake with
                    | inl e => Some (inl e)
                    | inr (a, fake') => Some (inr (a, (g, fake')))
                    end.

(** [while cpf in usados_cpf: cpf = gerar_cpf()], lines 90-91. *)
Fixpoint while_cpf (fuel : nat) (usados_cpf : list str) (cpf : str) : MF str :=
  if mem cpf usados_cpf
  then match fuel with
       | O => fun _ => None
       | S fuel' => bindF (on_random gerar_cpf) (while_cpf fuel' usados_cpf)
       end
  else retF cpf.

(** [while email in usados_email: ...], lines 97-99. *)
Fixpoint while_email (fuel : nat) (usados_email : list str)
    (local domain : str) (email : str) (n : Z) : MF str :=
  if mem email usados_email
  then match fuel with
       | O => fun _ => None
       | S fuel' =>
           while_email fuel' usados_email local domain
             (local ++ format_d 0 n ++ lit "@" ++ domain) (n + 1)
       end
  else retF email.

(** The body of the loop over the records, lines 86-104, on the
    variables it updates. *)
Definition cliente (fuel : nat) (domain : str) (i : Z)
    (acc : list str * list str * list (list str))
  : MF (list str * list str * list (list str)) :=
  let '(usados_cpf, usados_email, rows) := acc in
  bindF (on_fake gerar_nome) (fun nome =>
  bindF (on_random gerar_cpf) (fun cpf =>
  bindF (while_cpf fuel usados_cpf cpf) (fun cpf =>
  let usados_cpf := cpf :: usados_cpf in
  let local := gerar_email_local nome in
  let email := local ++ lit "@" ++ domain in
  bindF (while_email fuel usados_email local domain email 2) (fun email =>
  let usados_email := email :: usados_email in
  bindF (on_random gerar_celular) (fun celular =>
  let codigo := gerar_codigo i in
  retF (usados_cpf, usados_email,
        rows ++ [[codigo; nome; celular; cpf; email]])))))).

Fixpoint for_clientes (fuel : nat) (domain : str) (ids : list Z)
    (acc : list str * list str * list (list str))
  : MF (list str * list str * list (list str)) :=
  match ids with
  | [] => retF acc
  | i :: ids' => bindF (cliente fuel domain i acc) (for_clientes fuel domain ids')
  end.

(** [_in_memory_clients], lines 64-104: the rows handed to the CSV and
    XLSX writers.  [Faker("pt_BR")] starts on the shared generator;
    [seed_instance(seed)] gives the instance a generator of its own. *)
Definition _in_memory_clients (fuel : nat) (count : Z) (domain : str)
    (seed : option Z) (p : process)
  : option (exn + (list (list str) * process)) :=
  if count <? 1
  then Some (inl (HTTPException 400 (lit "count must be >= 1")))
  else if MAX_CLIENTS <? count
  then Some (inl (HTTPException 400
                    (lit "count exceeds limit (" ++ format_d 0 MAX_CLIENTS ++ lit ")")))
  else
    let fake := match seed with
                | Some s => Random s
                | None => faker_random p
                end in
    match for_clientes fuel domain (range2 1 (count + 1)) ([], [], [])
            (global_random p, fake) with
    | None => None
    | Some (inl e) => Some (inl e)
    | Some (inr ((_, _, rows), (g', fake'))) =>
        Some (inr (rows,
                   {| global_random := g';
                      faker_random := match seed with
                                      | Some _ => faker_random p
                                      | None => fake'
                                      end |}))
    end.

(** The columns of a client row. *)
Definition nome_of (r : list str) : str := nth 1 r [].
Definition celular_of (r : list str) : str := nth 2 r [].
Definition cpf_of (r : list str) : str := nth 3 r [].

End WithEnvironment.

End App.

(* ================================================================= *)
(** ** The command line of scripts/gerar_compras.py *)

Module Cli.
Import Py Eff Eff.Notations Rand GerarCompras.




Section WithGenerator.
Context {G : RandomGen} {C : Calendar}.

(** The message of the [ValueError] that [datetime.strptime] raises on a
    string. *)
Variable strptime_message : str -> str.


End WithGenerator.

End Cli.

(* ================================================================= *)
(** ** The access check of app.py *)

Module Auth.
Import Py.

Record HTTPBasicCredentials := {
  username : str;
  password : str
}.

(** An [HTTPException] with its headers. *)
Record http_error := {
  status_code : Z;
  detail : str;
  headers : list (str * str)
}.

Definition unauthorized : http_error :=
  {| status_code := 401;
     detail := lit "Unauthorized";
     headers := [(lit "WWW-Authenticate", lit "Basic")] |}.

(** The truth value of [os.environ.get(name)]: unset and empty are both
    false. *)
Definition truthy (v : option str) : bool :=
  match v with
  | Some (_ :: _) => true
  | _ => false
  end.

(** [x != v] for a set variable [v]. *)
Definition differs (x : str) (v : option str) : bool :=
  match v with
  | Some v => negb (str_eqb x v)
  | None => true
  end.

(** [require_basic], lines 35-58, on the two environment variables and
    the credentials of the request. *)
Definition require_basic (DBGEN_USER DBGEN_PASSWORD : option str)
    (credentials : HTTPBasicCredentials) : http_error + unit :=
  let cfg_user := DBGEN_USER in
  let cfg_pass := DBGEN_PASSWORD in
  if negb (truthy cfg_user) && negb (truthy cfg_pass) then inr tt
  else if truthy cfg_user && differs (username credentials) cfg_user
  then inl unauthorized
  else if truthy cfg_pass && differs (password credentials) cfg_pass
  then inl unauthorized
  else inr tt.

End Auth.

(* ================================================================= *)
(** ** Instances to run the model on *)

(** A proleptic Gregorian calendar: [strptime] accepts a four-digit year
    from 1 on, a month and a day of one or two digits, and rejects a day
    the month does not have; [strftime] prints the zero-padded form. *)
Module Gregorian.
Import Py.

Definition is_leap (y : Z) : bool :=
  (y mod 4 =? 0) && (negb (y mod 100 =? 0) || (y mod 400 =? 0)).

Definition days_in_month (y m : Z) : Z :=
  if m =? 2 then (if is_leap y then 29 else 28)
  else if (m =? 4) || (m =? 6) || (m =? 9) || (m =? 11) then 30 else 31.

(** [date(y, m, d).toordinal()]. *)
Definition toordinal (y m d : Z) : Z :=
  let y' := if m <=? 2 then y - 1 else y in
  let era := y' / 400 in
  let yoe := y' - era * 400 in
  let doy := (153 * (if 2 <? m then m - 3 else m + 9) + 2) / 5 + d - 1 in
  let doe := yoe * 365 + yoe / 4 - yoe / 100 + doy in
  era * 146097 + doe - 305.

(** [date.fromordinal(n)] as year, month, day. *)
Definition fromordinal (n : Z) : Z * Z * Z :=
  let z := n + 305 in
  let era := z / 146097 in
  let doe := z - era * 146097 in
  let yoe := (doe - doe / 1460 + doe / 36524 - doe / 146096) / 365 in
  let doy := doe - (365 * yoe + yoe / 4 - yoe / 100) in
  let mp := (5 * doy + 2) / 153 in
  let d := doy - (153 * mp + 2) / 5 + 1 in
  let m := if mp <? 10 then mp + 3 else mp - 9 in
  let y := yoe + era * 400 + (if m <=? 2 then 1 else 0) in
  (y, m, d).

Definition digit (c : N) : option Z :=
  if ((48 <=? c) && (c <=? 57))%N then Some (Z.of_N c - 48) else None.

Fixpoint number (acc : Z) (s : str) : option Z :=
  match s with
  | [] => Some acc
  | c :: s' => match digit c with
               | Some d => number (10 * acc + d) s'
               | None => None
               end
  end.

(** The fields between the hyphens. *)
Fixpoint fields (cur : str) (s : str) : list str :=
  match s with
  | [] => [cur]
  | c :: s' => if (c =? 45)%N then cur :: fields [] s' else fields (cur ++ [c]) s'
  end.

Definition parse (s : str) : option Z :=
  match fields [] s with
  | [ys; ms; ds] =>
      match number 0 ys, number 0 ms, number 0 ds with
      | Some y, Some m, Some d =>
          if (length ys =? 4)%nat
             && (1 <=? length ms)%nat && (length ms <=? 2)%nat
             && (1 <=? length ds)%nat && (length ds <=? 2)%nat
             && (1 <=? y) && (1 <=? m) && (m <=? 12)
             && (1 <=? d) && (d <=? days_in_month y m)
          then Some (toordinal y m d)
          else None
      | _, _, _ => None
      end
  | _ => None
  end.

Definition print (n : Z) : str :=
  let '(y, m, d) := fromordinal n in
  format_d 4 y ++ lit "-" ++ format_d 2 m ++ lit "-" ++ format_d 2 d.

Instance calendar : Calendar := {| strptime := parse; strftime := print |}.
End Gregorian.

(** The Unicode tables restricted to ASCII and the accented letters of
    Latin-1; other code points are left alone and given category [Cn]. *)
Module Latin1.
Import Py.

Definition to_lower (c : N) : N :=
  if ((65 <=? c) && (c <=? 90)
      || (192 <=? c) && (c <=? 222) && negb (c =? 215))%N
  then (c + 32)%N else c.

(** The combining mark of an accented lower-case letter. *)
Definition mark (c : N) : option (N * N) :=
  let a := 97%N in let e := 101%N in let i := 105%N in
  let o := 111%N in let u := 117%N in
  match c with
  | 224 => Some (a, 768) | 225 => Some (a, 769) | 226 => Some (a, 770)
  | 227 => Some (a, 771) | 228 => Some (a, 776) | 229 => Some (a, 778)
  | 231 => Some (99, 807)
  | 232 => Some (e, 768) | 233 => Some (e, 769) | 234 => Some (e, 770)
  | 235 => Some (e, 776)
  | 236 => Some (i, 768) | 237 => Some (i, 769) | 238 => Some (i, 770)
  | 239 => Some (i, 776)
  | 241 => Some (110, 771)
  | 242 => Some (o, 768) | 243 => Some (o, 769) | 244 => Some (o, 770)
  | 245 => Some (o, 771) | 246 => Some (o, 776)
  | 249 => Some (u, 768) | 250 => Some (u, 769) | 251 => Some (u, 770)
  | 252 => Some (u, 776)
  | 253 => Some (121, 769) | 255 => Some (121, 776)
  | _ => None
  end%N.

Definition decompose (c : N) : str :=
  match mark c with
  | Some (b, m) => [b; m]
  | None =>
      if ((192 <=? c) && (c <=? 221))%N
      then match mark (c + 32) with
           | Some (b, m) => [(b - 32)%N; m]
           | None => [c]
           end
      else [c]
  end.

Definition cat (c : N) : string :=
  if ((768 <=? c) && (c <=? 879))%N then "Mn"
  else if ((65 <=? c) && (c <=? 90)
           || (192 <=? c) && (c <=? 222) && negb (c =? 215))%N then "Lu"
  else if ((97 <=? c) && (c <=? 122)
           || (223 <=? c) && (c <=? 255) && negb (c =? 247))%N then "Ll"
  else if ((48 <=? c) && (c <=? 57))%N then "Nd"
  else if (c =? 32)%N then "Zs"
  else "Cn".

Instance unicode : Unicode := {|
  lower := map to_lower;
  normalize_NFD := flat_map decompose;
  category := cat
|}.
End Latin1.

(** Providers over the counter generator: a name drawn from a short list
    and the CPF of validate-docbr (nine drawn digits, two check digits,
    the mask [ddd.ddd.ddd-dd]). *)
Module Sample.
Import Py Rand.

Definition nomes : list str :=
  [lit "Maria da Silva"; lit "Dr. Jo" ++ [227%N] ++ lit "o Souza";
   lit "Ana Lima"; lit "Sra. L" ++ [250%N] ++ lit "cia dos Santos"].

Definition name (s : Z) : str * Z :=
  (nth (Z.to_nat (s mod len nomes)) nomes [], s + 1).

Fixpoint draw_digits (k : nat) (s : Z) : list Z * Z :=
  match k with
  | O => ([], s)
  | S k' => let (ds, s') := draw_digits k' (s + 1) in (s mod 10 :: ds, s')
  end.

(** The check digit over [doc], weights from [w] down to 2. *)
Definition check_digit (w : Z) (doc : list Z) : Z :=
  let sum := fold_left Z.add
               (map (fun '(k, d) => d * (w - k)) (enumerate doc)) 0 in
  let sum := (sum * 10) mod 11 in
  if sum =? 10 then 0 else sum.

Definition cpf (s : Z) : str * Z :=
  let (doc, s') := draw_digits 9 s in
  let doc := doc ++ [check_digit 10 doc] in
  let doc := doc ++ [check_digit 11 doc] in
  let ds := map (fun d => N.of_nat (48 + Z.to_nat d)) doc in
  (firstn 3 ds ++ lit "." ++ firstn 3 (skipn 3 ds) ++ lit "."
     ++ firstn 3 (skipn 6 ds) ++ lit "-" ++ skipn 9 ds, s').

Instance providers : @Providers CounterGen :=
  {| faker_name := name; cpf_generate_mask := cpf |}.

(** An upload with the header [Codigo,Nome] and three records, the last
    with a blank code. *)
Definition upload : App.DictReader :=
  {| App.fieldnames := Some [lit "Codigo"; lit "Nome"];
     App.records :=
       [[(lit "Codigo", Some (lit "C00001")); (lit "Nome", Some (lit "Ana"))];
        [(lit "Codigo", Some (lit " C00002 ")); (lit "Nome", Some (lit "Rui"))];
        [(lit "Codigo", Some (lit "  ")); (lit "Nome", None)]] |}.

(** An upload with one customer. *)
Definition upload1 : App.DictReader :=
  {| App.fieldnames := Some [lit "CodigoCliente"];
     App.records := [[(lit "CodigoCliente", Some (lit "C00001"))]] |}.

(** Two states of the interpreter's generators. *)
Definition process_a : @App.process CounterGen :=
  {| App.global_random := 0; App.faker_random := 0 |}.

Definition process_b : @App.process CounterGen :=
  {| App.global_random := 5; App.faker_random := 0 |}.
End Sample.

(* ================================================================= *)
(** ** Specification vocabulary *)

Module Spec.
Import Py Eff Rand GerarCompras.

(** Rows appended one per element: [emitted R pos xs new] relates the
    elements [xs], consumed from position [pos] of the output on, to the
    rows [new] they produced. *)
Inductive emitted {X B} (R : X -> nat -> B -> Prop)
  : nat -> list X -> list B -> Prop :=
| emitted_nil pos : emitted R pos [] []
| emitted_cons pos x xs r new :
    R x pos r -> emitted R (S pos) xs new ->
    emitted R pos (x :: xs) (r :: new).

Section Rows.
Variables (codigos_clientes : list str) (valor_min valor_max : Q)
          (datas filiais : list str).

(** An amount of the allocator: a draw between the bounds, rounded to
    two decimals. *)
Definition amount_ok (r : compra) : Prop :=
  exists u, (valor_min <= u)%Q /\ (u <= valor_max)%Q
            /\ valor_of r = round u 2.

(** The date of the row is the pool entry at [k] modulo the pool size. *)
Definition date_at (k : Z) (r : compra) : Prop :=
  nth_error datas (Z.to_nat (k mod len datas)) = Some (data_of r).

(** A row of the first loop, made for the pair [(idx, cod)]. *)
Definition coverage_row (ic : Z * str) (pos : nat) (r : compra) : Prop :=
  cod_of r = snd ic /\ date_at (fst ic) r
  /\ amount_ok r /\ In (filial_of r) filiais.

(** A row of the second loop, made at iteration [i] when [pos] rows
    were already there. *)
Definition fill_row (i : Z) (pos : nat) (r : compra) : Prop :=
  In (cod_of r) codigos_clientes /\ date_at (Z.of_nat pos + i) r
  /\ amount_ok r /\ In (filial_of r) filiais.
End Rows.

(** The three decimal digits of a number below 1000, as characters. *)
Definition three_digits (i : Z) : str :=
  [Z.to_N (48 + i / 100); Z.to_N (48 + i / 10 mod 10); Z.to_N (48 + i mod 10)].

(** The tokens the e-mail derivation works on: the name lower-cased and
    without accents, split at whitespace, the connector words dropped and
    each remaining token filtered to the permitted characters. *)
Definition name_tokens {U : Unicode} (nome : str) : list str :=
  map (filter (fun ch => existsb (N.eqb ch) GerarClientes.permitido))
    (filter (fun t => negb (mem t GerarClientes.conectores))
       (split (GerarClientes.remove_accents (lower nome)))).

(** The first and the last token joined with a dot; a single token alone. *)
Definition first_last (tokens : list str) : str :=
  match tokens with
  | [] => []
  | [t] => t
  | t :: rest => t ++ lit "." ++ last rest []
  end.

(** The derivation as the specification words it: first and last token
    joined with a dot, a single token alone, and the placeholder when fewer
    than two tokens remain. *)
Definition email_local_as_stated {U : Unicode} (f : str -> str) : Prop :=
  forall nome,
    (2 <= len (name_tokens nome) -> f nome = first_last (name_tokens nome))
    /\ (len (name_tokens nome) = 1 -> f nome = first_last (name_tokens nome))
    /\ (len (name_tokens nome) < 2 -> f nome = lit "cliente").

(** The customer codes an upload holds: the values of the first accepted
    column its header has, stripped, the blank ones dropped; none when
    the header has no accepted column. *)
Definition customer_codes (reader : App.DictReader) : list str :=
  let names := match App.fieldnames reader with
               | Some names => names
               | None => []
               end in
  match find (fun cand => mem cand names) App.candidatos with
  | None => []
  | Some field =>
      filter (fun code => negb (str_eqb code []))
        (map (fun row => strip (match App.get row field with
                                | Some (Some v) => v
                                | _ => []
                                end))
             (App.records reader))
  end.

(** A request for purchases that breaks a precondition: a row count
    below 1 or above the limit, inverted value bounds, a date that does
    not parse, an end date before the start date, or an upload without
    customer codes. *)
Definition invalid_request {C : Calendar} (MAX_PURCHASES : Z)
    (reader : App.DictReader) (rows_total : Z) (valor_min valor_max : Q)
    (inicio_str fim_str : str) : Prop :=
  rows_total < 1
  \/ MAX_PURCHASES < rows_total
  \/ (valor_max < valor_min)%Q
  \/ strptime inicio_str = None
  \/ strptime fim_str = None
  \/ (exists inicio fim, strptime inicio_str = Some inicio
                         /\ strptime fim_str = Some fim /\ fim < inicio)
  \/ customer_codes reader = [].

End Spec.

(** Shapes of the generated strings. *)
Module Shape.
Import Py.

(** The [w] low decimal digits of [i], most significant first. *)
Definition fixed_digits (w : nat) (i : Z) : str :=
  map (fun k => Z.to_N (48 + (i / 10 ^ Z.of_nat k) mod 10)) (rev (seq 0 w)).

(** The number a string of ASCII digits spells. *)
Definition int_of_digits (s : str) : option Z := Gregorian.number 0 s.

(** [P] holds of the [n] integers from [i] on. *)
Fixpoint holds_from (n : nat) (i : Z) (P : Z -> bool) : bool :=
  match n with
  | O => true
  | S n' => P i && holds_from n' (i + 1) P
  end.

(** [s] ends with [suffix]. *)
Definition endswith (suffix s : str) : Prop := exists pre, s = pre ++ suffix.

(** The first and last columns of a client row. *)
Definition codigo_of (r : list str) : str := nth 0 r [].
Definition email_of (r : list str) : str := nth 4 r [].

End Shape.

(* ================================================================= *)
(** ** Properties *)

Import Py Eff Eff.Notations Rand GerarCompras GerarClientes App Spec.
Import Cli Auth Shape.

(** *** Rounding *)

Lemma round_half_even_mono (x y : Q) :
  (x <= y)%Q -> round_half_even x <= round_half_even y.
Proof.
  intros Hxy. unfold round_half_even.
  pose proof (Qfloor_resp_le _ _ Hxy) as Hf.
  pose proof (Qfloor_le x) as Hx1. pose proof (Qlt_floor x) as Hx2.
  pose proof (Qfloor_le y) as Hy1. pose proof (Qlt_floor y) as Hy2.
  destruct (Z.eq_dec (Qfloor x) (Qfloor y)) as [E | NE].
  - rewrite <- E in *.
    destruct (Qcompare_spec (x - inject_Z (Qfloor x)) (1 # 2)) as [H1|H1|H1];
    destruct (Qcompare_spec (y - inject_Z (Qfloor x)) (1 # 2)) as [H2|H2|H2];
      try lia; try (destruct (Z.even (Qfloor x)); lia); exfalso; lra.
  - assert (Qfloor x + 1 <= Qfloor y) by lia.
    destruct (x - inject_Z (Qfloor x) ?= 1 # 2)%Q,
             (y - inject_Z (Qfloor y) ?= 1 # 2)%Q;
      try lia; destruct (Z.even (Qfloor x));
      try destruct (Z.even (Qfloor y)); lia.
Qed.

Lemma round_mono (x y : Q) (nd : nat) :
  (x <= y)%Q -> (round x nd <= round y nd)%Q.
Proof.
  intros H. unfold round.
  set (scale := Z.to_pos (10 ^ Z.of_nat nd)).
  assert (Hm : (x * inject_Z (Z.pos scale) <= y * inject_Z (Z.pos scale))%Q).
  { apply Qmult_le_compat_r; [exact H|]. unfold Qle; simpl; lia. }
  apply round_half_even_mono in Hm.
  unfold Qle; simpl. nia.
Qed.

(** *** Loops that append one row per element *)

Lemma emitted_length {X B} (R : X -> nat -> B -> Prop) pos xs new :
  emitted R pos xs new -> length new = length xs.
Proof. induction 1; simpl; congruence. Qed.

Lemma emitted_nth {X B} (R : X -> nat -> B -> Prop) pos xs new :
  emitted R pos xs new ->
  forall j x r, nth_error xs j = Some x -> nth_error new j = Some r ->
                R x (pos + j)%nat r.
Proof.
  induction 1 as [|pos x xs r new HR _ IH]; intros j y q Hx Hr.
  - destruct j; discriminate.
  - destruct j as [|j]; simpl in *.
    + inversion Hx; inversion Hr; subst. now rewrite Nat.add_0_r.
    + replace (pos + S j)%nat with (S pos + j)%nat by lia. eauto.
Qed.

Lemma emitted_Forall {X B} (R : X -> nat -> B -> Prop) (Q : B -> Prop) pos xs new :
  (forall x p r, R x p r -> Q r) -> emitted R pos xs new -> Forall Q new.
Proof. intros HQ; induction 1; constructor; eauto. Qed.

Lemma for_each_emitted {S X B} (body : X -> list B -> M S (list B))
    (R : X -> nat -> B -> Prop) :
  (forall x acc s, exists r s',
      body x acc s = inr (acc ++ [r], s') /\ R x (length acc) r) ->
  forall xs acc s,
    exists new s', for_each xs body acc s = inr (acc ++ new, s')
                   /\ emitted R (length acc) xs new.
Proof.
  intros Hbody xs; induction xs as [|x xs IH]; intros acc s; simpl.
  - exists [], s. rewrite app_nil_r. split; [reflexivity | constructor].
  - destruct (Hbody x acc s) as (r & s1 & Hb & HR).
    destruct (IH (acc ++ [r]) s1) as (new & s2 & Hf & He).
    exists (r :: new), s2. unfold bind. rewrite Hb, Hf.
    rewrite <- app_assoc. split; [reflexivity|].
    constructor; [exact HR|]. rewrite length_app in He; simpl in He.
    now rewrite Nat.add_1_r in He.
Qed.

(** *** [range] and [enumerate] *)

Lemma range_length (n : Z) : length (range n) = Z.to_nat n.
Proof. unfold range. now rewrite length_map, length_seq. Qed.

Lemma range_nth (n : Z) (j : nat) :
  (j < Z.to_nat n)%nat -> nth_error (range n) j = Some (Z.of_nat j).
Proof.
  intros H. unfold range. rewrite nth_error_map, nth_error_seq.
  destruct (Nat.ltb_spec j (Z.to_nat n)); [reflexivity | lia].
Qed.

Lemma enumerate_length {A} (l : list A) : length (enumerate l) = length l.
Proof.
  unfold enumerate. rewrite length_combine, range_length. unfold len. lia.
Qed.

Lemma combine_nth_error {A B} (xs : list A) (ys : list B) j x y :
  nth_error xs j = Some x -> nth_error ys j = Some y ->
  nth_error (combine xs ys) j = Some (x, y).
Proof.
  revert xs ys; induction j as [|j IH]; intros [|a xs] [|b ys] Hx Hy;
    simpl in *; try discriminate; [congruence | auto].
Qed.

Lemma enumerate_nth {A} (l : list A) (j : nat) (x : A) :
  nth_error l j = Some x -> nth_error (enumerate l) j = Some (Z.of_nat j, x).
Proof.
  intros H. unfold enumerate. apply combine_nth_error; [|exact H].
  apply range_nth. unfold len. rewrite Nat2Z.id.
  apply nth_error_Some. congruence.
Qed.

(** *** Draws *)

Section Draws.
Context {G : RandomGen}.

Lemma uniform_run (a b : Q) (s : rng) :
  exists u s', uniform a b s = inr (u, s')
               /\ ((a <= b)%Q -> (a <= u)%Q /\ (u <= b)%Q).
Proof.
  unfold uniform. pose proof (random_unit s) as [H0 H1].
  destruct (random s) as [r s']; simpl in *.
  eexists _, _; split; [reflexivity|]. intros Hab. split; nra.
Qed.

Lemma choice_run {A} (l : list A) (s : rng) :
  l <> [] -> exists x s', choice l s = inr (x, s') /\ In x l.
Proof.
  intros Hl. unfold choice. destruct l as [|a l]; [congruence|].
  set (l' := a :: l) in *.
  assert (Hlen : 0 < len l') by (unfold len, l'; simpl; lia).
  pose proof (randbelow_range (len l') s Hlen) as Hk.
  destruct (randbelow (len l') s) as [k s']; simpl in Hk.
  unfold getitem.
  destruct (k <? 0) eqn:E; [lia|]. rewrite E.
  destruct (nth_error l' (Z.to_nat k)) as [x|] eqn:Hn.
  - exists x, s'. split; [reflexivity|]. eapply nth_error_In; eauto.
  - apply nth_error_None in Hn. unfold len in Hk. lia.
Qed.

Lemma getitem_mod {A} (l : list A) (i : Z) :
  l <> [] ->
  exists k x, mod_ i (len l) = inr k /\ k = i mod len l /\ 0 <= k < len l
              /\ getitem l k = inr x /\ nth_error l (Z.to_nat k) = Some x.
Proof.
  intros Hl.
  assert (Hlen : 0 < len l)
    by (destruct l; [congruence | unfold len; simpl; lia]).
  pose proof (Z.mod_pos_bound i (len l) Hlen) as Hk.
  assert (E' : (i mod len l <? 0) = false) by lia.
  destruct (nth_error l (Z.to_nat (i mod len l))) as [x|] eqn:Hn.
  - exists (i mod len l), x. unfold mod_, getitem.
    destruct (len l =? 0) eqn:E; [lia|]. rewrite E', E', Hn.
    repeat split; try lia; auto.
  - apply nth_error_None in Hn. unfold len in *. lia.
Qed.
End Draws.

(** *** The two loops of [montar_compras] *)

Section Allocator.
Context {G : RandomGen}.
Variables (codigos_clientes : list str) (total_linhas : Z)
          (valor_min valor_max : Q) (datas filiais : list str).

Hypothesis codigos_nonempty : codigos_clientes <> [].
Hypothesis datas_nonempty : datas <> [].
Hypothesis filiais_nonempty : filiais <> [].
Hypothesis valores_ordered : (valor_min <= valor_max)%Q.

Let cov_row := coverage_row valor_min valor_max datas filiais.
Let fil_row := fill_row codigos_clientes valor_min valor_max datas filiais.

Lemma montar_compras_run (s : rng) :
  exists cov fill s',
    montar_compras codigos_clientes total_linhas valor_min valor_max
      datas filiais s = inr (cov ++ fill, s')
    /\ emitted cov_row 0 (enumerate codigos_clientes) cov
    /\ emitted fil_row (length codigos_clientes)
         (range (Z.max total_linhas (len codigos_clientes)
                 - len codigos_clientes)) fill.
Proof.
  unfold montar_compras.
  assert (Hlt : Qltb valor_max valor_min = false).
  { unfold Qltb. apply negb_false_iff, Qle_bool_iff. exact valores_ordered. }
  rewrite Hlt.
  match goal with
  | |- context [for_each (enumerate _) ?b []] => set (body1 := b)
  end.
  match goal with
  | |- context [for_each (range _) ?b] => set (body2 := b)
  end.
  assert (H1 : forall x acc s0, exists r s1,
             body1 x acc s0 = inr (acc ++ [r], s1)
             /\ cov_row x (length acc) r).
  { intros [idx cod] acc s0. unfold body1, bind, lift.
    destruct (getitem_mod datas idx datas_nonempty)
      as (k & d & Hm & Hk & _ & Hg & Hn).
    rewrite Hm, Hg.
    destruct (uniform_run valor_min valor_max s0) as (u & s1 & Hu & Hb).
    rewrite Hu.
    destruct (choice_run filiais s1 filiais_nonempty) as (f & s2 & Hc & Hf).
    unfold escolher. rewrite Hc.
    eexists _, _. split; [reflexivity|].
    destruct (Hb valores_ordered).
    repeat split; simpl; auto.
    - unfold date_at; simpl. subst k. exact Hn.
    - exists u; auto. }
  assert (H2 : forall i acc s0, exists r s1,
             body2 i acc s0 = inr (acc ++ [r], s1)
             /\ fil_row i (length acc) r).
  { intros i acc s0. unfold body2, bind, lift, escolher.
    destruct (choice_run codigos_clientes s0 codigos_nonempty)
      as (c & s1 & Hc & Hin).
    rewrite Hc.
    destruct (getitem_mod datas (len acc + i) datas_nonempty)
      as (k & d & Hm & Hk & _ & Hg & Hn).
    rewrite Hm, Hg.
    destruct (uniform_run valor_min valor_max s1) as (u & s2 & Hu & Hb).
    rewrite Hu.
    destruct (choice_run filiais s2 filiais_nonempty) as (f & s3 & Hf & Hfin).
    rewrite Hf.
    eexists _, _. split; [reflexivity|].
    destruct (Hb valores_ordered).
    repeat split; simpl; auto.
    - unfold date_at; simpl. subst k. exact Hn.
    - exists u; auto. }
  destruct (for_each_emitted body1 cov_row H1 (enumerate codigos_clientes) [] s)
    as (cov & s1 & Hcov & Ecov).
  simpl in Hcov, Ecov.
  pose proof (emitted_length _ _ _ _ Ecov) as Lcov.
  rewrite enumerate_length in Lcov.
  destruct (for_each_emitted body2 fil_row H2
              (range (Z.max total_linhas (len codigos_clientes) - len cov))
              cov s1)
    as (fill & s2 & Hfill & Efill).
  exists cov, fill, s2. unfold bind at 1. rewrite Hcov.
  split; [exact Hfill|]. split; [exact Ecov|].
  unfold len in *. rewrite Lcov in Efill. exact Efill.
Qed.
End Allocator.

Lemma coverage_codes (vmin vmax : Q) (datas filiais : list str) :
  forall (l : list str) (zs : list Z) pos cov,
    length zs = length l ->
    emitted (coverage_row vmin vmax datas filiais) pos (combine zs l) cov ->
    map cod_of cov = l.
Proof.
  induction l as [|c l IH]; intros zs pos cov Hlen He.
  - destruct zs; simpl in *; inversion He; reflexivity.
  - destruct zs as [|z zs]; simpl in *; [discriminate|].
    inversion He as [|? ? ? r new HR He']; subst. simpl.
    destruct HR as (Hc & _). simpl in Hc. rewrite Hc. f_equal.
    eapply IH; [|exact He']. lia.
Qed.

Lemma enumerate_coverage_codes (vmin vmax : Q) (datas filiais l : list str) cov :
  emitted (coverage_row vmin vmax datas filiais) 0 (enumerate l) cov ->
  map cod_of cov = l.
Proof.
  apply coverage_codes. rewrite range_length. unfold len. lia.
Qed.

(** *** C1: the customer codes of the output *)

(** C1. For a non-empty list of customer codes, a non-empty date pool, a
    non-empty branch pool and ordered value bounds, [montar_compras]
    returns rows whose customer codes are exactly the input codes: every
    input code is the code of some row, and every row carries an input
    code. *)
Theorem montar_compras_codes_exact {G : RandomGen}
    (codigos_clientes : list str) (total_linhas : Z) (valor_min valor_max : Q)
    (datas filiais : list str) (s : rng) :
  codigos_clientes <> [] -> datas <> [] -> filiais <> [] ->
  (valor_min <= valor_max)%Q ->
  exists rows s',
    montar_compras codigos_clientes total_linhas valor_min valor_max
      datas filiais s = inr (rows, s')
    /\ forall c, In c (map cod_of rows) <-> In c codigos_clientes.
Proof.
  intros Hc Hd Hf Hv.
  destruct (montar_compras_run codigos_clientes total_linhas valor_min valor_max
              datas filiais Hc Hd Hf Hv s) as (cov & fill & s' & Hrun & Ecov & Efill).
  exists (cov ++ fill), s'. split; [exact Hrun|].
  apply enumerate_coverage_codes in Ecov.
  assert (Hfill : Forall (fun r => In (cod_of r) codigos_clientes) fill).
  { eapply emitted_Forall; [|exact Efill]. intros x p r HR. apply HR. }
  intros c. rewrite map_app, in_app_iff, Ecov. split.
  - intros [H|H]; [exact H|].
    apply in_map_iff in H. destruct H as (r & <- & Hr).
    rewrite Forall_forall in Hfill. auto.
  - auto.
Qed.

Lemma montar_compras_codes_exact_witness :
  exists rows s',
    @montar_compras CounterGen [lit "C00001"; lit "C00002"] 3 10%Q 20%Q
      [lit "2024-01-01"; lit "2024-01-02"] [lit "F001"] 1 = inr (rows, s')
    /\ forall c, In c (map cod_of rows) <-> In c [lit "C00001"; lit "C00002"].
Proof.
  apply (@montar_compras_codes_exact CounterGen);
    [discriminate | discriminate | discriminate | unfold Qle; simpl; lia].
Defined.

(** *** C2: the number of rows *)

(** C2. Under the same conditions [montar_compras] returns exactly
    [max(total_linhas, len(codigos_clientes))] rows: a smaller
    [total_linhas], zero or negative included, is raised to the number of
    customers and no exception is raised for it. *)
Theorem montar_compras_row_count {G : RandomGen}
    (codigos_clientes : list str) (total_linhas : Z) (valor_min valor_max : Q)
    (datas filiais : list str) (s : rng) :
  codigos_clientes <> [] -> datas <> [] -> filiais <> [] ->
  (valor_min <= valor_max)%Q ->
  exists rows s',
    montar_compras codigos_clientes total_linhas valor_min valor_max
      datas filiais s = inr (rows, s')
    /\ len rows = Z.max total_linhas (len codigos_clientes).
Proof.
  intros Hc Hd Hf Hv.
  destruct (montar_compras_run codigos_clientes total_linhas valor_min valor_max
              datas filiais Hc Hd Hf Hv s) as (cov & fill & s' & Hrun & Ecov & Efill).
  exists (cov ++ fill), s'. split; [exact Hrun|].
  apply emitted_length in Ecov, Efill.
  rewrite enumerate_length in Ecov. rewrite range_length in Efill.
  unfold len in *. rewrite length_app, Ecov, Efill. lia.
Qed.

Lemma montar_compras_row_count_witness :
  exists rows s',
    @montar_compras CounterGen [lit "C00001"; lit "C00002"] 1 10%Q 20%Q
      [lit "2024-01-01"] [lit "F001"; lit "F002"] 7 = inr (rows, s')
    /\ len rows = Z.max 1 (len [lit "C00001"; lit "C00002"]).
Proof.
  apply (@montar_compras_row_count CounterGen);
    [discriminate | discriminate | discriminate | unfold Qle; simpl; lia].
Defined.

(** *** C9: no access outside the date pool *)

Lemma date_at_in_range (datas : list str) (k : Z) (r : compra) :
  date_at datas k r ->
  exists j, (j < length datas)%nat /\ nth_error datas j = Some (data_of r).
Proof.
  unfold date_at. intros H. eexists; split; [|exact H].
  apply nth_error_Some. congruence.
Qed.

(** C9. For a non-empty list of customer codes, a non-empty date pool of
    any length, a non-empty branch pool and [valor_max >= valor_min],
    [montar_compras] returns normally (no [IndexError], no
    [ZeroDivisionError]), and the date of every row is the pool entry at an
    index below the pool's length. *)
Theorem montar_compras_returns {G : RandomGen}
    (codigos_clientes : list str) (total_linhas : Z) (valor_min valor_max : Q)
    (datas filiais : list str) (s : rng) :
  codigos_clientes <> [] -> datas <> [] -> filiais <> [] ->
  (valor_min <= valor_max)%Q ->
  exists rows s',
    montar_compras codigos_clientes total_linhas valor_min valor_max
      datas filiais s = inr (rows, s')
    /\ Forall (fun r => exists j, (j < length datas)%nat
                                  /\ nth_error datas j = Some (data_of r)) rows.
Proof.
  intros Hc Hd Hf Hv.
  destruct (montar_compras_run codigos_clientes total_linhas valor_min valor_max
              datas filiais Hc Hd Hf Hv s) as (cov & fill & s' & Hrun & Ecov & Efill).
  exists (cov ++ fill), s'. split; [exact Hrun|].
  apply Forall_app. split.
  - eapply emitted_Forall; [|exact Ecov].
    intros x p r (_ & Hdate & _). eapply date_at_in_range; eauto.
  - eapply emitted_Forall; [|exact Efill].
    intros x p r (_ & Hdate & _). eapply date_at_in_range; eauto.
Qed.

Lemma montar_compras_returns_witness :
  exists rows s',
    @montar_compras CounterGen [lit "C00001"; lit "C00002"; lit "C00003"] 8
      (1 # 2)%Q 99%Q [lit "2024-01-01"; lit "2024-01-02"] [lit "F001"] 0
    = inr (rows, s')
    /\ Forall (fun r => exists j,
                 (j < length [lit "2024-01-01"; lit "2024-01-02"])%nat
                 /\ nth_error [lit "2024-01-01"; lit "2024-01-02"] j
                    = Some (data_of r)) rows.
Proof.
  apply (@montar_compras_returns CounterGen);
    [discriminate | discriminate | discriminate | unfold Qle; simpl; lia].
Defined.

(** *** C4: which pool entry each row takes *)

(** The rows by position: row [i] of the first [len(codigos_clientes)]
    rows belongs to the [i]-th code and takes the pool entry [i mod size];
    the [j]-th row after them carries an input code and takes the pool
    entry [(len(codigos_clientes) + 2 * j) mod size], because [len(rows)]
    has already grown by [j] when [i = j] is added to it. *)
Lemma montar_compras_positions {G : RandomGen}
    (codigos_clientes : list str) (total_linhas : Z) (valor_min valor_max : Q)
    (datas filiais : list str) (s : rng) :
  codigos_clientes <> [] -> datas <> [] -> filiais <> [] ->
  (valor_min <= valor_max)%Q ->
  exists rows s',
    montar_compras codigos_clientes total_linhas valor_min valor_max
      datas filiais s = inr (rows, s')
    /\ len rows = Z.max total_linhas (len codigos_clientes)
    /\ (forall i c, nth_error codigos_clientes i = Some c ->
          exists r, nth_error rows i = Some r /\ cod_of r = c
                    /\ date_at datas (Z.of_nat i) r)
    /\ (forall j r, nth_error rows (length codigos_clientes + j) = Some r ->
          In (cod_of r) codigos_clientes
          /\ date_at datas (len codigos_clientes + 2 * Z.of_nat j) r).
Proof.
  intros Hc Hd Hf Hv.
  destruct (montar_compras_run codigos_clientes total_linhas valor_min valor_max
              datas filiais Hc Hd Hf Hv s) as (cov & fill & s' & Hrun & Ecov & Efill).
  exists (cov ++ fill), s'. split; [exact Hrun|].
  pose proof (emitted_length _ _ _ _ Ecov) as Lcov.
  pose proof (emitted_length _ _ _ _ Efill) as Lfill.
  rewrite enumerate_length in Lcov. rewrite range_length in Lfill.
  split; [unfold len in *; rewrite length_app, Lcov, Lfill; lia|].
  split.
  - intros i c Hi.
    assert (Hlt : (i < length cov)%nat)
      by (rewrite Lcov; apply nth_error_Some; congruence).
    destruct (nth_error cov i) as [r|] eqn:Hr;
      [|apply nth_error_None in Hr; lia].
    exists r. rewrite nth_error_app1 by exact Hlt. split; [exact Hr|].
    pose proof (emitted_nth _ _ _ _ Ecov i _ _ (enumerate_nth _ _ _ Hi) Hr)
      as (Hcod & Hdate & _).
    simpl in *. auto.
  - intros j r Hj.
    rewrite nth_error_app2 in Hj by lia.
    replace (length codigos_clientes + j - length cov)%nat with j in Hj by lia.
    assert (Hlt : (j < length fill)%nat) by (apply nth_error_Some; congruence).
    rewrite Lfill in Hlt.
    pose proof (emitted_nth _ _ _ _ Efill j _ _ (range_nth _ _ Hlt) Hj)
      as (Hcod & Hdate & _).
    split; [exact Hcod|].
    replace (len codigos_clientes + 2 * Z.of_nat j)
      with (Z.of_nat (length codigos_clientes + j) + Z.of_nat j)
      by (unfold len; lia).
    exact Hdate.
Qed.

(** C4. One customer, three rows and a pool of three dates: the third row,
    made when two rows were already there, takes the pool entry 0 again and
    the entry 2 is never used.  The second loop adds its counter [i] to
    [len(rows)], which has itself grown by [i]. *)
Theorem montar_compras_fill_date_skips {G : RandomGen} (s : rng) :
  exists rows s',
    montar_compras [lit "C00001"] 3 10%Q 10%Q
      [lit "2024-01-01"; lit "2024-01-02"; lit "2024-01-03"] [lit "F001"] s
    = inr (rows, s')
    /\ map data_of rows = [lit "2024-01-01"; lit "2024-01-02"; lit "2024-01-01"].
Proof.
  destruct (montar_compras_positions [lit "C00001"] 3 10%Q 10%Q
              [lit "2024-01-01"; lit "2024-01-02"; lit "2024-01-03"]
              [lit "F001"] s)
    as (rows & s' & Hrun & Hlen & Hcov & Hfill);
    try discriminate.
  exists rows, s'. split; [exact Hrun|].
  destruct rows as [|r0 [|r1 [|r2 [|r3 rows]]]];
    try (exfalso; unfold len in Hlen; simpl length in Hlen; lia).
  destruct (Hcov 0%nat _ eq_refl) as (r & Hr & _ & H0).
  inversion Hr; subst r.
  destruct (Hfill 0%nat r1 eq_refl) as (_ & H1).
  destruct (Hfill 1%nat r2 eq_refl) as (_ & H2).
  unfold date_at in *. simpl in H0, H1, H2.
  simpl. congruence.
Qed.

(** *** The date pool *)

Section DatePool.
Context {G : RandomGen} {C : Calendar}.

(** [gerar_datas] returns [n] dates (none for a negative [n]), each the
    printed form of a day between [inicio] and [fim]. *)
Lemma gerar_datas_run (n inicio fim : Z) (s : rng) :
  inicio <= fim ->
  exists datas s',
    gerar_datas n inicio fim s = inr (datas, s')
    /\ length datas = Z.to_nat n
    /\ Forall (fun x => exists d, inicio <= d <= fim /\ x = strftime d) datas.
Proof.
  intros Hle. unfold gerar_datas.
  destruct (fim <? inicio) eqn:E; [lia|].
  set (delta := if fim - inicio <? 0 then 0 else fim - inicio).
  assert (Hdelta : delta = fim - inicio)
    by (unfold delta; destruct (fim - inicio <? 0) eqn:E'; lia).
  match goal with
  | |- context [for_each _ ?b []] => set (body := b)
  end.
  assert (Hbody : forall (x : Z) acc s0, exists r s1,
             body x acc s0 = inr (acc ++ [r], s1)
             /\ (fun _ (_ : nat) y =>
                   exists d, inicio <= d <= fim /\ y = strftime d)
                  x (length acc) r).
  { intros x acc s0. unfold body, bind.
    destruct (0 <? delta) eqn:Ed.
    - unfold randint, randrange.
      replace (delta + 1 - 0) with (delta + 1) by lia.
      destruct (0 <? delta + 1) eqn:Ew; [|lia].
      pose proof (randbelow_range (delta + 1) s0 ltac:(lia)) as Hk.
      destruct (randbelow (delta + 1) s0) as [k s1]; simpl in Hk.
      eexists _, _. split; [reflexivity|].
      exists (inicio + (0 + k)). split; [lia | reflexivity].
    - eexists _, _. split; [reflexivity|].
      exists (inicio + 0). split; [lia | reflexivity]. }
  destruct (for_each_emitted body _ Hbody (range n) [] s)
    as (datas & s' & Hrun & He).
  exists datas, s'. split; [exact Hrun|]. split.
  - apply emitted_length in He. now rewrite range_length in He.
  - eapply emitted_Forall; [|exact He]. intros x p r H. exact H.
Qed.
End DatePool.

(** *** The branch pool *)

Lemma range2_length (a b : Z) : length (range2 a b) = Z.to_nat (b - a).
Proof. unfold range2. now rewrite length_map, length_seq. Qed.

Lemma gerar_filiais_length (qtd : Z) :
  length (gerar_filiais qtd) = Z.to_nat (Z.max 1 qtd).
Proof.
  unfold gerar_filiais. rewrite length_map, range2_length. f_equal. lia.
Qed.

Lemma gerar_filiais_nonempty (qtd : Z) : gerar_filiais qtd <> [].
Proof.
  intros H. pose proof (gerar_filiais_length qtd) as L.
  rewrite H in L. simpl in L. lia.
Qed.

(** *** The customer codes of an upload *)

Lemma fold_codes (f : dict -> str) (rows : list dict) (acc : list str) :
  fold_left (fun codes row => match f row with
                              | [] => codes
                              | _ => codes ++ [f row]
                              end) rows acc
  = acc ++ filter (fun code => negb (str_eqb code [])) (map f rows).
Proof.
  revert acc; induction rows as [|row rows IH]; intros acc; simpl.
  - now rewrite app_nil_r.
  - rewrite IH. destruct (f row) as [|c cs] eqn:E; simpl.
    + reflexivity.
    + unfold str_eqb. destruct (list_eq_dec N.eq_dec (c :: cs) []);
        [discriminate|]. simpl. now rewrite <- app_assoc.
Qed.

(** [_parse_client_codes_from_upload] returns the customer codes of the
    upload, and raises status 400 when there are none. *)
Lemma parse_client_codes_spec (reader : DictReader) :
  match customer_codes reader with
  | [] => exists detail,
      _parse_client_codes_from_upload reader = inl (HTTPException 400 detail)
  | codes => _parse_client_codes_from_upload reader = inr codes
  end.
Proof.
  unfold _parse_client_codes_from_upload, customer_codes. cbv zeta.
  destruct (fieldnames reader) as [[|n names]|];
    try (cbn; eexists; reflexivity).
  destruct (find _ candidatos) as [field|]; [|eexists; reflexivity].
  pose proof (fold_codes
                (fun row => strip match get row field with
                                  | Some (Some v) => v
                                  | _ => []
                                  end) (records reader) []) as Hfold.
  cbv beta in Hfold. rewrite Hfold. simpl.
  destruct (filter _ _); [eexists; reflexivity | reflexivity].
Qed.

(** *** The purchase request as a whole *)

Lemma Qltb_true (a b : Q) : Qltb a b = true <-> (a < b)%Q.
Proof.
  unfold Qltb. rewrite negb_true_iff. split.
  - intros H. apply Qnot_le_lt. intros Hle.
    apply Qle_bool_iff in Hle. congruence.
  - intros H. destruct (Qle_bool b a) eqn:E; [|reflexivity].
    apply Qle_bool_iff in E. exfalso. eapply Qlt_not_le; eauto.
Qed.

Lemma Qltb_false (a b : Q) : Qltb a b = false <-> (b <= a)%Q.
Proof.
  unfold Qltb. rewrite negb_false_iff. apply Qle_bool_iff.
Qed.

Section Request.
Context {G : RandomGen} {C : Calendar}.
Variable MAX_PURCHASES : Z.
Variables (reader : DictReader) (rows_total : Z) (valor_min valor_max : Q)
          (inicio_str fim_str : str) (filiais_qtd seed : Z).

Let run := _in_memory_purchases MAX_PURCHASES reader rows_total
             valor_min valor_max inicio_str fim_str filiais_qtd seed.
Let invalid := invalid_request MAX_PURCHASES reader rows_total
                 valor_min valor_max inicio_str fim_str.

(** Either the request is invalid and is answered with status 400, or it
    is valid and the rows are those of [montar_compras] on the pool of
    [gerar_datas], both run on the generator made from the seed. *)
Lemma in_memory_purchases_cases (p : process) :
  (invalid /\ exists detail, run p = inl (HTTPException 400 detail))
  \/ (~ invalid
      /\ exists inicio fim datas r1 rows r2,
           strptime inicio_str = Some inicio
           /\ strptime fim_str = Some fim
           /\ inicio <= fim
           /\ (valor_min <= valor_max)%Q
           /\ customer_codes reader <> []
           /\ gerar_datas (Z.max rows_total (len (customer_codes reader)))
                inicio fim (Random seed) = inr (datas, r1)
           /\ datas <> []
           /\ Forall (fun x => exists d, inicio <= d <= fim /\ x = strftime d)
                datas
           /\ montar_compras (customer_codes reader) rows_total
                valor_min valor_max datas (gerar_filiais filiais_qtd) r1
              = inr (rows, r2)
           /\ run p = inr (rows, p)).
Proof.
  unfold run, invalid, invalid_request, _in_memory_purchases.
  destruct (rows_total <? 1) eqn:E1.
  { left. split; [left; lia | eexists; reflexivity]. }
  destruct (MAX_PURCHASES <? rows_total) eqn:E2.
  { left. split; [right; left; lia | eexists; reflexivity]. }
  destruct (Qltb valor_max valor_min) eqn:E3.
  { left. apply Qltb_true in E3.
    split; [right; right; left; exact E3 | eexists; reflexivity]. }
  apply Qltb_false in E3.
  destruct (strptime inicio_str) as [inicio|] eqn:Ei.
  2:{ left. split; [do 3 right; left; reflexivity | eexists; reflexivity]. }
  destruct (strptime fim_str) as [fim|] eqn:Ef.
  2:{ left. split; [do 4 right; left; reflexivity | eexists; reflexivity]. }
  destruct (fim <? inicio) eqn:E4.
  { left. split; [|eexists; reflexivity].
    do 5 right; left. exists inicio, fim. repeat split; auto. lia. }
  pose proof (parse_client_codes_spec reader) as Hparse.
  destruct (customer_codes reader) as [|c cs] eqn:Ecodes.
  { left. destruct Hparse as (detail & Hparse).
    split; [do 6 right; reflexivity|].
    exists detail. unfold bind, lift. now rewrite Hparse. }
  right. split.
  { intros [H|[H|[H|[H|[H|[H|H]]]]]]; try lia; try discriminate.
    - eapply Qlt_not_le; eauto.
    - destruct H as (i & f & Hi & Hf & Hlt).
      inversion Hi; inversion Hf; subst. lia. }
  destruct (gerar_datas_run (Z.max rows_total (len (c :: cs))) inicio fim
              (Random seed) ltac:(lia)) as (datas & r1 & Hd & Ld & Fd).
  assert (Hdn : datas <> []).
  { intros ->. simpl in Ld. lia. }
  destruct (montar_compras_run (c :: cs) rows_total valor_min valor_max
              datas (gerar_filiais filiais_qtd) ltac:(discriminate) Hdn
              (gerar_filiais_nonempty filiais_qtd) E3 r1)
    as (cov & fill & r2 & Hm & _).
  exists inicio, fim, datas, r1, (cov ++ fill), r2.
  repeat split; auto; try lia; try discriminate.
  unfold bind, lift, with_local, ret. rewrite Hparse, Hd, Hm. reflexivity.
Qed.
End Request.

(** Every row of [montar_compras] has a rounded draw as amount, a pool
    entry as date, a pool entry as branch and an input code as customer. *)
Lemma montar_compras_rows {G : RandomGen}
    (codigos_clientes : list str) (total_linhas : Z) (valor_min valor_max : Q)
    (datas filiais : list str) (s : rng) :
  codigos_clientes <> [] -> datas <> [] -> filiais <> [] ->
  (valor_min <= valor_max)%Q ->
  exists rows s',
    montar_compras codigos_clientes total_linhas valor_min valor_max
      datas filiais s = inr (rows, s')
    /\ Forall (fun r => amount_ok valor_min valor_max r
                        /\ In (data_of r) datas
                        /\ In (filial_of r) filiais) rows.
Proof.
  intros Hc Hd Hf Hv.
  destruct (montar_compras_run codigos_clientes total_linhas valor_min valor_max
              datas filiais Hc Hd Hf Hv s) as (cov & fill & s' & Hrun & Ecov & Efill).
  exists (cov ++ fill), s'. split; [exact Hrun|].
  apply Forall_app. split.
  - eapply emitted_Forall; [|exact Ecov].
    intros x p r (_ & Hdate & Ha & Hfil). repeat split; auto.
    eapply nth_error_In; exact Hdate.
  - eapply emitted_Forall; [|exact Efill].
    intros x p r (_ & Hdate & Ha & Hfil). repeat split; auto.
    eapply nth_error_In; exact Hdate.
Qed.

(** *** C3: the rows depend on the request alone *)

(** C3. Two runs of [_in_memory_purchases] with the same seed and the same
    arguments give the same outcome, the same rows in the same order or the
    same exception, whatever state the interpreter's own generators are in:
    the date pool and the allocation draw only from the generator made from
    the seed. *)
Theorem in_memory_purchases_deterministic {G : RandomGen} {C : Calendar}
    (MAX_PURCHASES : Z) (reader : DictReader) (rows_total : Z)
    (valor_min valor_max : Q) (inicio_str fim_str : str)
    (filiais_qtd seed : Z) (p1 p2 : process) :
  outcome (_in_memory_purchases MAX_PURCHASES reader rows_total
             valor_min valor_max inicio_str fim_str filiais_qtd seed p1)
  = outcome (_in_memory_purchases MAX_PURCHASES reader rows_total
               valor_min valor_max inicio_str fim_str filiais_qtd seed p2).
Proof.
  unfold _in_memory_purchases.
  destruct (rows_total <? 1); [reflexivity|].
  destruct (MAX_PURCHASES <? rows_total); [reflexivity|].
  destruct (Qltb valor_max valor_min); [reflexivity|].
  destruct (strptime inicio_str) as [inicio|]; [|reflexivity].
  destruct (strptime fim_str) as [fim|]; [|reflexivity].
  destruct (fim <? inicio); [reflexivity|].
  unfold bind, lift, with_local, ret.
  destruct (_parse_client_codes_from_upload reader) as [e|codes];
    [reflexivity|].
  destruct (gerar_datas _ inicio fim (Random seed)) as [e|[datas r1]];
    [reflexivity|].
  destruct (montar_compras codes rows_total valor_min valor_max datas
              (gerar_filiais filiais_qtd) r1) as [e|[rows r2]]; reflexivity.
Qed.

(** *** C7: when a purchase request fails *)

(** C7. [_in_memory_purchases] raises [HTTPException] with status 400
    exactly when the request is invalid (row count below 1 or above
    [MAX_PURCHASES], [valor_max < valor_min], a date that does not parse,
    an end date before the start date, no customer code in the upload), and
    returns rows, all [max(rows_total, number of codes)] of them, exactly
    when it is valid; no other exception escapes. *)
Theorem in_memory_purchases_fails_iff_invalid {G : RandomGen} {C : Calendar}
    (MAX_PURCHASES : Z) (reader : DictReader) (rows_total : Z)
    (valor_min valor_max : Q) (inicio_str fim_str : str)
    (filiais_qtd seed : Z) (p : process) :
  ((exists detail,
       _in_memory_purchases MAX_PURCHASES reader rows_total valor_min valor_max
         inicio_str fim_str filiais_qtd seed p = inl (HTTPException 400 detail))
   <-> invalid_request MAX_PURCHASES reader rows_total valor_min valor_max
         inicio_str fim_str)
  /\ ((exists rows,
         _in_memory_purchases MAX_PURCHASES reader rows_total valor_min valor_max
           inicio_str fim_str filiais_qtd seed p = inr (rows, p)
         /\ len rows = Z.max rows_total (len (customer_codes reader)))
      <-> ~ invalid_request MAX_PURCHASES reader rows_total valor_min valor_max
            inicio_str fim_str).
Proof.
  destruct (in_memory_purchases_cases MAX_PURCHASES reader rows_total
              valor_min valor_max inicio_str fim_str filiais_qtd seed p)
    as [(Hinv & detail & Hrun)
       |(Hval & inicio & fim & datas & r1 & rows & r2
         & _ & _ & _ & Hv & Hc & Hd & Hdn & _ & Hm & Hrun)].
  - split; split.
    + intros _. exact Hinv.
    + intros _. exists detail. exact Hrun.
    + intros (rows & Hr & _). rewrite Hrun in Hr. discriminate.
    + intros Hn. contradiction.
  - split; split.
    + intros (detail & Hr). rewrite Hrun in Hr. discriminate.
    + intros Hi. contradiction.
    + intros _. exact Hval.
    + intros _. exists rows. split; [exact Hrun|].
      destruct (montar_compras_positions (customer_codes reader) rows_total
                  valor_min valor_max datas (gerar_filiais filiais_qtd) r1
                  Hc Hdn (gerar_filiais_nonempty filiais_qtd) Hv)
        as (rows' & r2' & Hm' & Hlen & _).
      rewrite Hm in Hm'. inversion Hm'; subst. exact Hlen.
Qed.

(** *** C5: the range of amounts and dates *)

(** C5. One customer, one row, both bounds at 10 + 1/1024 (a value a
    double holds exactly): the draw is the bound itself, [round(_, 2)]
    takes it to 10.00, and the row is returned with an amount below
    [valor_min].  The amount is rounded after it is drawn and nothing keeps
    the rounded value between the bounds. *)
Lemma amount_below_valor_min :
  @_in_memory_purchases CounterGen Gregorian.calendar 200000 Sample.upload1 1
    (10241 # 1024)%Q (10241 # 1024)%Q (lit "2024-01-01") (lit "2024-01-01")
    1 1 Sample.process_a
  = inr ([(lit "C00001", lit "2024-01-01", (1000 # 100)%Q, lit "F001")],
         Sample.process_a)
  /\ ~ (10241 # 1024 <= valor_of (lit "C00001", lit "2024-01-01",
                                   (1000 # 100)%Q, lit "F001"))%Q.
Proof.
  split.
  - vm_compute. reflexivity.
  - unfold Qle; simpl. lia.
Qed.

(** X18. The dates of the rows. Every row returned by [_in_memory_purchases]
    has as date the printed form of a day between the parsed start and end
    dates, both included. *)
Theorem in_memory_purchases_dates_in_range {G : RandomGen} {C : Calendar}
    (MAX_PURCHASES : Z) (reader : DictReader) (rows_total : Z)
    (valor_min valor_max : Q) (inicio_str fim_str : str)
    (filiais_qtd seed : Z) (p p' : process) (rows : list compra) :
  _in_memory_purchases MAX_PURCHASES reader rows_total valor_min valor_max
    inicio_str fim_str filiais_qtd seed p = inr (rows, p') ->
  exists inicio fim,
    strptime inicio_str = Some inicio /\ strptime fim_str = Some fim
    /\ inicio <= fim
    /\ Forall (fun r => exists d, inicio <= d <= fim /\ data_of r = strftime d)
         rows.
Proof.
  intros Hrun.
  destruct (in_memory_purchases_cases MAX_PURCHASES reader rows_total
              valor_min valor_max inicio_str fim_str filiais_qtd seed p)
    as [(_ & detail & Hr)
       |(_ & inicio & fim & datas & r1 & rows0 & r2
         & Hi & Hf & Hle & Hv & Hc & _ & Hdn & Fd & Hm & Hr)];
    rewrite Hr in Hrun; [discriminate|].
  inversion Hrun; subst rows0 p'.
  exists inicio, fim. split; [exact Hi|]. split; [exact Hf|].
  split; [exact Hle|].
  destruct (montar_compras_rows (customer_codes reader) rows_total
              valor_min valor_max datas (gerar_filiais filiais_qtd) r1
              Hc Hdn (gerar_filiais_nonempty filiais_qtd) Hv)
    as (rows' & r2' & Hm' & Hrows).
  rewrite Hm in Hm'. inversion Hm'; subst rows' r2'.
  rewrite Forall_forall in Hrows, Fd |- *.
  intros r Hr_in. destruct (Hrows r Hr_in) as (_ & Hdate & _). auto.
Qed.

Lemma in_memory_purchases_dates_in_range_witness :
  exists rows,
    @_in_memory_purchases CounterGen Gregorian.calendar 200000 Sample.upload 3
      10%Q 20%Q (lit "2024-01-01") (lit "2024-12-31") 2 42 Sample.process_a
    = inr (rows, Sample.process_a)
    /\ exists inicio fim,
         Gregorian.parse (lit "2024-01-01") = Some inicio
         /\ Gregorian.parse (lit "2024-12-31") = Some fim
         /\ inicio <= fim
         /\ Forall (fun r => exists d, inicio <= d <= fim
                                       /\ data_of r = Gregorian.print d)
              rows.
Proof.
  eexists. split.
  - vm_compute. reflexivity.
  - apply (@in_memory_purchases_dates_in_range CounterGen Gregorian.calendar
             200000 Sample.upload 3 10%Q 20%Q (lit "2024-01-01")
             (lit "2024-12-31") 2 42 Sample.process_a Sample.process_a).
    vm_compute. reflexivity.
Defined.

(** *** C10: the branch codes *)

Lemma str_eqb_eq (a b : str) : str_eqb a b = true -> a = b.
Proof.
  unfold str_eqb. destruct (list_eq_dec N.eq_dec a b); [auto | discriminate].
Qed.

Lemma range2_In (a b i : Z) : a <= i < b -> In i (range2 a b).
Proof.
  intros H. unfold range2. apply in_map_iff.
  exists (Z.to_nat (i - a)). split; [lia|]. apply in_seq. lia.
Qed.

Lemma range2_nth (a b k : Z) :
  0 <= k < b - a -> nth_error (range2 a b) (Z.to_nat k) = Some (a + k).
Proof.
  intros H. unfold range2. rewrite nth_error_map, nth_error_seq.
  destruct (Nat.ltb_spec (Z.to_nat k) (Z.to_nat (b - a))); [|lia].
  simpl. f_equal. lia.
Qed.

Lemma format_d_three_digits (i : Z) :
  1 <= i <= 999 -> format_d 3 i = three_digits i.
Proof.
  intros H.
  assert (Hall : forallb (fun i => str_eqb (format_d 3 i) (three_digits i))
                   (range2 1 1000) = true) by (vm_compute; reflexivity).
  rewrite forallb_forall in Hall.
  apply str_eqb_eq, Hall, range2_In. lia.
Qed.

(** C10. [gerar_filiais] never fails and returns [max(1, qtd)] codes; the
    code at index [k] is ["F"] followed by [k + 1] in decimal, zero-padded
    to three digits, which below 1000 are exactly its hundreds, tens and
    units; a zero or negative [qtd] gives the single code [F001]. *)
Theorem gerar_filiais_codes (qtd k : Z) :
  0 <= k < Z.max 1 qtd ->
  len (gerar_filiais qtd) = Z.max 1 qtd
  /\ getitem (gerar_filiais qtd) k = inr (lit "F" ++ format_d 3 (k + 1))
  /\ (k < 999 -> format_d 3 (k + 1) = three_digits (k + 1))
  /\ (qtd <= 0 -> gerar_filiais qtd = [lit "F001"]).
Proof.
  intros Hk. split; [|split; [|split]].
  - unfold len. rewrite gerar_filiais_length. lia.
  - unfold getitem, gerar_filiais.
    destruct (k <? 0) eqn:E; [lia|]. rewrite E.
    rewrite nth_error_map, range2_nth by lia.
    replace (1 + k) with (k + 1) by lia. reflexivity.
  - intros Hs. apply format_d_three_digits. lia.
  - intros Hq. unfold gerar_filiais.
    replace (Z.max 1 qtd) with 1 by lia. reflexivity.
Qed.

Lemma gerar_filiais_codes_witness :
  len (gerar_filiais (-4)) = Z.max 1 (-4)
  /\ getitem (gerar_filiais (-4)) 0 = inr (lit "F" ++ format_d 3 (0 + 1))
  /\ (0 < 999 -> format_d 3 (0 + 1) = three_digits (0 + 1))
  /\ (-4 <= 0 -> gerar_filiais (-4) = [lit "F001"]).
Proof.
  apply (gerar_filiais_codes (-4) 0). simpl. lia.
Defined.

(** *** C8: the local part of the e-mail address *)

Lemma split_from_space (cur : str) (c : N) (s : str) :
  isspace c = true ->
  split_from cur (c :: s)
  = match cur with [] => [] | _ => [cur] end ++ split_from [] s.
Proof. intros H. simpl. rewrite H. destruct cur; reflexivity. Qed.

Lemma split_from_word (w : str) :
  forallb (fun c => negb (isspace c)) w = true ->
  forall cur s, split_from cur (w ++ s) = split_from (cur ++ w) s.
Proof.
  induction w as [|c w IH]; intros Hw cur s; simpl in *.
  - now rewrite app_nil_r.
  - apply andb_prop in Hw. destruct Hw as [Hc Hw].
    apply negb_true_iff in Hc. rewrite Hc, IH by exact Hw.
    now rewrite <- app_assoc.
Qed.

Lemma startswith_prefix (p s : str) :
  startswith p s = true -> s = p ++ skipn (length p) s.
Proof.
  revert s; induction p as [|a p IH]; intros [|b s] H; simpl in *;
    try reflexivity; try discriminate.
  apply andb_prop in H. destruct H as [Hab Hp].
  apply N.eqb_eq in Hab. subst b. f_equal. auto.
Qed.

Section Connectors.
Let keep (t : str) : bool := negb (mem t conectores).

(** Removing a connector word standing between two spaces does not change
    the tokens that are kept. *)
Lemma replace_scan_connector (w : str) :
  w <> [] -> forallb (fun c => negb (isspace c)) w = true -> keep w = false ->
  forall steps s cur,
    (length s <= steps)%nat ->
    filter keep (split_from cur
                   (replace_scan steps (32%N :: w ++ [32%N]) [32%N] s))
    = filter keep (split_from cur s).
Proof.
  intros Hne Hw Hk. induction steps as [|k IH]; intros s cur Hlen.
  - destruct s; [reflexivity | simpl in Hlen; lia].
  - destruct s as [|c s']; [reflexivity|].
    cbn [replace_scan].
    destruct (startswith (32%N :: w ++ [32%N]) (c :: s')) eqn:Hs.
    + pose proof (startswith_prefix _ _ Hs) as Hsplit.
      set (rest := skipn (length (32%N :: w ++ [32%N])) (c :: s')) in *.
      assert (Hrest : (length rest <= k)%nat).
      { apply (f_equal (@length N)) in Hsplit.
        rewrite length_app in Hsplit. simpl in Hsplit, Hlen. lia. }
      rewrite Hsplit.
      change ([32%N] ++ replace_scan k (32%N :: w ++ [32%N]) [32%N] rest)
        with (32%N :: replace_scan k (32%N :: w ++ [32%N]) [32%N] rest).
      change ((32%N :: w ++ [32%N]) ++ rest)
        with (32%N :: ((w ++ [32%N]) ++ rest)).
      rewrite !split_from_space by reflexivity.
      rewrite !filter_app, IH by exact Hrest. f_equal.
      rewrite <- app_assoc, split_from_word by exact Hw.
      simpl app. rewrite split_from_space by reflexivity.
      destruct w as [|a w']; [congruence|].
      simpl. fold keep. now rewrite Hk.
    + simpl in Hlen.
      destruct (isspace c) eqn:Hc.
      * rewrite !split_from_space by exact Hc.
        rewrite !filter_app, IH by lia. reflexivity.
      * simpl. rewrite Hc. apply IH. lia.
Qed.

Lemma replace_connector (w : str) (s : str) :
  In w conectores ->
  filter keep (split (replace (lit " " ++ w ++ lit " ") (lit " ") s))
  = filter keep (split s).
Proof.
  intros Hin. unfold split, replace.
  change (lit " " ++ w ++ lit " ") with (32%N :: w ++ [32%N]).
  cbv iota beta.
  apply replace_scan_connector; [| | | lia];
    simpl in Hin; repeat (destruct Hin as [<-|Hin]; [first [discriminate | reflexivity]|]);
    contradiction.
Qed.
End Connectors.

Lemma last_map {A B} (f : A -> B) (l : list A) (d : A) :
  last (map f l) (f d) = f (last l d).
Proof.
  induction l as [|a [|b l] IH]; simpl in *; auto.
Qed.

(** The five replacements leave the kept tokens as they are. *)
Lemma preposicoes_redundant (base : str) :
  filter (fun t => negb (mem t conectores))
    (split (fold_left (fun base p => replace p (lit " ") base) preposicoes base))
  = filter (fun t => negb (mem t conectores)) (split base).
Proof.
  unfold preposicoes. cbn [fold_left].
  change (lit " das ") with (lit " " ++ lit "das" ++ lit " ").
  change (lit " dos ") with (lit " " ++ lit "dos" ++ lit " ").
  change (lit " do ") with (lit " " ++ lit "do" ++ lit " ").
  change (lit " de ") with (lit " " ++ lit "de" ++ lit " ").
  change (lit " da ") with (lit " " ++ lit "da" ++ lit " ").
  rewrite !replace_connector; [reflexivity | | | | |];
    unfold conectores; simpl; auto 10.
Qed.

(** C8, as the code has it. The local part is derived from the tokens of
    the name (lower-cased, accents removed, connector words dropped, each
    filtered to [a-z0-9.-]): the first and the last token joined with a
    dot, or the single token alone; leading and trailing dots are then
    stripped, and the placeholder ["cliente"] is returned when nothing is
    left, which includes the case of no token at all. *)
Theorem gerar_email_local_derivation {U : Unicode} (nome : str) :
  gerar_email_local nome
  = match strip_chars (lit ".") (first_last (name_tokens nome)) with
    | [] => lit "cliente"
    | local => local
    end.
Proof.
  unfold gerar_email_local, name_tokens.
  rewrite preposicoes_redundant.
  set (keep := fun t => negb (mem t conectores)).
  set (allowed := fun ch => existsb (N.eqb ch) permitido).
  destruct (filter keep (split (remove_accents (lower nome))))
    as [|t [|t' rest]].
  - reflexivity.
  - change (2 <=? len [t]) with false. cbn [hd map first_last].
    destruct (strip_chars (lit ".") (filter allowed t)); reflexivity.
  - replace (2 <=? len (t :: t' :: rest)) with true
      by (symmetry; apply Z.leb_le; unfold len; simpl length; lia).
    cbn [hd map first_last].
    assert (E : filter allowed (t ++ lit "." ++ last (t :: t' :: rest) [])
                = filter allowed t ++ lit "."
                    ++ last (filter allowed t' :: map (filter allowed) rest) []).
    { rewrite !filter_app. f_equal. f_equal.
      change (filter allowed t' :: map (filter allowed) rest)
        with (map (filter allowed) (t' :: rest)).
      change (last (t :: t' :: rest) []) with (last (t' :: rest) []).
      symmetry. apply (last_map (filter allowed) (t' :: rest) []). }
    rewrite E.
    destruct (strip_chars (lit ".") _); reflexivity.
Qed.

(** C8, as stated, on a name of one word: the code returns the word, not
    the placeholder the statement asks for below two tokens. *)
Lemma single_name_is_kept :
  @name_tokens Latin1.unicode (lit "Maria") = [lit "maria"]
  /\ @gerar_email_local Latin1.unicode (lit "Maria") = lit "maria"
  /\ ~ @email_local_as_stated Latin1.unicode (@gerar_email_local Latin1.unicode).
Proof.
  split; [vm_compute; reflexivity|]. split; [vm_compute; reflexivity|].
  intros H. destruct (H (lit "Maria")) as (_ & _ & H3).
  assert (Hlt : len (@name_tokens Latin1.unicode (lit "Maria")) < 2)
    by (vm_compute; reflexivity).
  specialize (H3 Hlt). vm_compute in H3. discriminate.
Qed.

(** A trailing dot of the last token does not reach the address. *)
Example email_local_strips_dots :
  @gerar_email_local Latin1.unicode (lit "Jos" ++ [233%N] ++ lit " da Silva Jr.")
  = lit "jose.jr".
Proof. vm_compute. reflexivity. Qed.

(** *** C6: what the seed of the client generator determines *)

Section Clients.
Context {G : RandomGen} {U : Unicode} {P : Providers}.
Variable MAX_CLIENTS : Z.

Lemma on_random_fake {A} (m : M rng A) g fake r :
  on_random m (g, fake) = Some r ->
  match r with
  | inl _ => True
  | inr (_, (_, fake')) => fake' = fake
  end.
Proof.
  unfold on_random. destruct (m g) as [e|[a g']]; intros H;
    inversion H; subst; auto.
Qed.

Lemma while_cpf_fake (fuel : nat) (usados : list str) :
  forall cpf g fake cpf' g' fake',
    while_cpf fuel usados cpf (g, fake) = Some (inr (cpf', (g', fake'))) ->
    fake' = fake.
Proof.
  induction fuel as [|k IH]; intros cpf g fake cpf' g' fake' H; simpl in H.
  - destruct (mem cpf usados); [discriminate|].
    unfold retF in H. now inversion H.
  - destruct (mem cpf usados).
    + unfold bindF in H.
      destruct (on_random gerar_cpf (g, fake)) as [[e|[c [g1 f1]]]|] eqn:E;
        try discriminate.
      apply on_random_fake in E. subst f1. eapply IH; eauto.
    + unfold retF in H. now inversion H.
Qed.

Lemma while_email_state (fuel : nat) (usados : list str) (local domain : str) :
  forall email n st email' st',
    while_email fuel usados local domain email n st = Some (inr (email', st')) ->
    st' = st.
Proof.
  induction fuel as [|k IH]; intros email n st email' st' H; simpl in H.
  - destruct (mem email usados); [discriminate|].
    unfold retF in H. now inversion H.
  - destruct (mem email usados); [eapply IH; eauto|].
    unfold retF in H. now inversion H.
Qed.

(** One record: the name and the new state of [fake] are those of
    [gerar_nome] on the old state of [fake], whatever the [random] module
    gives. *)
Lemma cliente_nome (fuel : nat) (domain : str) (i : Z) acc g fake
    ucpf uemail rows g' fake' :
  cliente fuel domain i acc (g, fake) = Some (inr ((ucpf, uemail, rows), (g', fake'))) ->
  exists nome row,
    gerar_nome fake = inr (nome, fake')
    /\ rows = snd acc ++ [row] /\ nome_of row = nome.
Proof.
  destruct acc as [[ucpf0 uemail0] rows0]. unfold cliente, bindF.
  unfold on_fake at 1. unfold gerar_nome at 1.
  destruct (faker_name fake) as [raw fake1] eqn:En.
  set (nome := strip _).
  destruct (on_random gerar_cpf (g, fake1)) as [[e|[c [g1 f1]]]|] eqn:E1;
    try discriminate.
  apply on_random_fake in E1. subst f1.
  destruct (while_cpf fuel ucpf0 c (g1, fake1)) as [[e|[c' [g2 f2]]]|] eqn:E2;
    try discriminate.
  apply while_cpf_fake in E2. subst f2.
  destruct (while_email fuel uemail0 _ domain _ 2 (g2, fake1))
    as [[e|[em st3]]|] eqn:E3; try discriminate.
  apply while_email_state in E3. subst st3.
  destruct (on_random gerar_celular (g2, fake1)) as [[e|[cel [g4 f4]]]|] eqn:E4;
    try discriminate.
  apply on_random_fake in E4. subst f4.
  unfold retF. intros H. inversion H; subst.
  exists nome, [gerar_codigo i; nome; cel; c'; em].
  repeat split. unfold gerar_nome. now rewrite En.
Qed.

(** Two passes over the same indices that start from the same state of
    [fake] produce the same names. *)
Lemma for_clientes_nomes (fuel : nat) (domain : str) (ids : list Z) :
  forall acc1 acc2 g1 g2 fake ucpf1 uemail1 rows1 st1 ucpf2 uemail2 rows2 st2,
    for_clientes fuel domain ids acc1 (g1, fake)
      = Some (inr ((ucpf1, uemail1, rows1), st1)) ->
    for_clientes fuel domain ids acc2 (g2, fake)
      = Some (inr ((ucpf2, uemail2, rows2), st2)) ->
    map nome_of (snd acc1) = map nome_of (snd acc2) ->
    map nome_of rows1 = map nome_of rows2.
Proof.
  induction ids as [|i ids IH];
    intros acc1 acc2 g1 g2 fake ucpf1 uemail1 rows1 st1
           ucpf2 uemail2 rows2 st2 H1 H2 Hacc; simpl in H1, H2.
  - unfold retF in H1, H2. inversion H1; inversion H2; subst.
    exact Hacc.
  - unfold bindF in H1, H2.
    destruct (cliente fuel domain i acc1 (g1, fake))
      as [[e|[[[u1 e1] r1] [g1' f1']]]|] eqn:C1; try discriminate.
    destruct (cliente fuel domain i acc2 (g2, fake))
      as [[e|[[[u2 e2] r2] [g2' f2']]]|] eqn:C2; try discriminate.
    apply cliente_nome in C1, C2.
    destruct C1 as (n1 & row1 & N1 & R1 & Hn1).
    destruct C2 as (n2 & row2 & N2 & R2 & Hn2).
    rewrite N1 in N2. inversion N2; subst n2 f2'.
    eapply IH; [exact H1 | exact H2 |].
    simpl. rewrite R1, R2, !map_app, Hacc. simpl. congruence.
Qed.

(** With a seed, the names of the rows are the same from any state of the
    interpreter's generators. *)
Lemma in_memory_clients_names_from_seed (fuel : nat) (count : Z)
    (domain : str) (seed : Z) (p1 p2 p1' p2' : process) rows1 rows2 :
  _in_memory_clients MAX_CLIENTS fuel count domain (Some seed) p1
    = Some (inr (rows1, p1')) ->
  _in_memory_clients MAX_CLIENTS fuel count domain (Some seed) p2
    = Some (inr (rows2, p2')) ->
  map nome_of rows1 = map nome_of rows2.
Proof.
  unfold _in_memory_clients.
  destruct (count <? 1); [discriminate|].
  destruct (MAX_CLIENTS <? count); [discriminate|].
  destruct (for_clientes fuel domain _ _ (global_random p1, Random seed))
    as [[e|[[[u1 e1] r1] [g1 f1]]]|] eqn:F1; try discriminate.
  destruct (for_clientes fuel domain _ _ (global_random p2, Random seed))
    as [[e|[[[u2 e2] r2] [g2 f2]]]|] eqn:F2; try discriminate.
  intros H1 H2. inversion H1; inversion H2; subst.
  eapply for_clientes_nomes; [exact F1 | exact F2 | reflexivity].
Qed.
End Clients.

(** C6. Two runs of [_in_memory_clients] with the same seed, the same
    count and the same domain, started in two states of the [random]
    module: the names agree, the phone numbers and the CPFs do not.
    [gerar_celular] and [gerar_cpf] draw from the [random] module, which
    the seed does not touch. *)
Theorem in_memory_clients_seed_misses_phone_and_cpf :
  exists rows_a pa rows_b pb,
    @_in_memory_clients CounterGen Latin1.unicode Sample.providers 50000 10 2
      (lit "example.com") (Some 42) Sample.process_a = Some (inr (rows_a, pa))
    /\ @_in_memory_clients CounterGen Latin1.unicode Sample.providers 50000 10 2
         (lit "example.com") (Some 42) Sample.process_b = Some (inr (rows_b, pb))
    /\ map nome_of rows_a = map nome_of rows_b
    /\ map celular_of rows_a <> map celular_of rows_b
    /\ map cpf_of rows_a <> map cpf_of rows_b.
Proof.
  eexists _, _, _, _.
  split; [vm_compute; reflexivity|].
  split; [vm_compute; reflexivity|].
  split; [vm_compute; reflexivity|].
  split; vm_compute; discriminate.
Qed.

(* ================================================================= *)
(** ** Worked examples *)

Example split_on_whitespace :
  split (lit "  ana  da silva ") = [lit "ana"; lit "da"; lit "silva"].
Proof. reflexivity. Qed.

Example replace_leftmost :
  replace (lit " da ") (lit " ") (lit "x da da y") = lit "x da y"
  /\ replace (lit "aa") (lit "b") (lit "aaaaa") = lit "bba".
Proof. split; reflexivity. Qed.

Example format_d_padding :
  format_d 3 7 = lit "007" /\ format_d 3 1234 = lit "1234"
  /\ format_d 3 (-5) = lit "-05".
Proof. repeat split; reflexivity. Qed.

Example round_two_decimals :
  round (10241 # 1024) 2 = (1000 # 100)%Q
  /\ round (1 # 8) 2 = (12 # 100)%Q /\ round (3 # 8) 2 = (38 # 100)%Q.
Proof. repeat split; reflexivity. Qed.

Example strptime_rejects_month_13 :
  Gregorian.parse (lit "2024-13-01") = None
  /\ Gregorian.parse (lit "2024-02-30") = None
  /\ Gregorian.parse (lit "2024-01-01") = Some 738886
  /\ Gregorian.print 738886 = lit "2024-01-01".
Proof. repeat split; reflexivity. Qed.

(** The header [Codigo] is accepted in place of [CódigoCliente]; blank
    codes are skipped and the others stripped. *)
Example upload_with_fallback_header :
  _parse_client_codes_from_upload Sample.upload
  = inr [lit "C00001"; lit "C00002"].
Proof. reflexivity. Qed.

(** Two customers, three rows, both bounds at 10, one day, one branch. *)
Example three_rows_for_two_customers :
  exists c,
    outcome (@_in_memory_purchases CounterGen Gregorian.calendar 200000
               Sample.upload 3 10%Q 10%Q (lit "2024-01-01") (lit "2024-01-01")
               1 1 Sample.process_a)
    = inr [(lit "C00001", lit "2024-01-01", (1000 # 100)%Q, lit "F001");
           (lit "C00002", lit "2024-01-01", (1000 # 100)%Q, lit "F001");
           (c, lit "2024-01-01", (1000 # 100)%Q, lit "F001")].
Proof. eexists. vm_compute. reflexivity. Qed.

Example malformed_date_is_refused :
  outcome (@_in_memory_purchases CounterGen Gregorian.calendar 200000
             Sample.upload 3 10%Q 20%Q (lit "2024-13-01") (lit "2024-12-31")
             1 1 Sample.process_a)
  = inl (HTTPException 400 (lit "Invalid date format. Use YYYY-MM-DD")).
Proof. reflexivity. Qed.

Example email_local_examples :
  @gerar_email_local Latin1.unicode
    (lit "Jo" ++ [227%N] ++ lit "o da Silva Souza") = lit "joao.souza"
  /\ @gerar_email_local Latin1.unicode (lit "de da") = lit "cliente"
  /\ @gerar_email_local Latin1.unicode (lit "...") = lit "cliente".
Proof. repeat split; vm_compute; reflexivity. Qed.

(* ================================================================= *)
(** ** Further properties of the scripts *)

(** *** Decimal codes *)

Lemma number_after_digits (d : Decimal.uint) :
  forall p, Gregorian.number (Z.pos p) (str_of_uint d)
            = Some (Z.pos (Pos.of_uint_acc d p)).
Proof.
  induction d; intros p; cbn [str_of_uint Gregorian.number Pos.of_uint_acc];
    try reflexivity;
    match goal with
    | |- context [Gregorian.digit ?c] =>
        let v := eval vm_compute in (Gregorian.digit c) in
        change (Gregorian.digit c) with v
    end;
    cbv iota beta; rewrite <- IHd; f_equal; lia.
Qed.

Lemma number_of_uint (d : Decimal.uint) :
  Gregorian.number 0 (str_of_uint d) = Some (Z.of_N (Pos.of_uint d)).
Proof.
  induction d; cbn [str_of_uint Gregorian.number Pos.of_uint];
    try reflexivity;
    match goal with
    | |- context [Gregorian.digit ?c] =>
        let v := eval vm_compute in (Gregorian.digit c) in
        change (Gregorian.digit c) with v
    end;
    cbv iota beta; first [exact IHd | apply number_after_digits].
Qed.

Lemma number_leading_zeros (k : nat) (s : str) :
  Gregorian.number 0 (repeat 48%N k ++ s) = Gregorian.number 0 s.
Proof. induction k; simpl; auto. Qed.

(** Reading back a formatted non-negative integer gives the integer,
    whatever the padding. *)
Lemma int_of_digits_format_d (w : nat) (i : Z) :
  0 <= i -> int_of_digits (format_d w i) = Some i.
Proof.
  intros Hi. unfold int_of_digits, format_d, zfill.
  destruct (i <? 0) eqn:E; [lia|].
  rewrite number_leading_zeros, number_of_uint.
  change (Pos.of_uint (N.to_uint (Z.abs_N i)))
    with (N.of_uint (N.to_uint (Z.abs_N i))).
  rewrite DecimalN.Unsigned.of_to. f_equal. lia.
Qed.

Lemma format_d_injective (w : nat) (i j : Z) :
  0 <= i -> 0 <= j -> format_d w i = format_d w j -> i = j.
Proof.
  intros Hi Hj E.
  pose proof (int_of_digits_format_d w i Hi) as Ei.
  pose proof (int_of_digits_format_d w j Hj) as Ej.
  rewrite E in Ei. congruence.
Qed.

Lemma holds_from_spec (P : Z -> bool) (n : nat) :
  forall i, holds_from n i P = true ->
            forall j, i <= j < i + Z.of_nat n -> P j = true.
Proof.
  induction n as [|n IH]; intros i H j Hj; [lia|].
  simpl in H. apply andb_prop in H. destruct H as [Hi Hn].
  destruct (Z.eq_dec j i) as [->|Hne]; [exact Hi|].
  apply (IH (i + 1) Hn). lia.
Qed.

Lemma format_d_fixed_digits_4 (i : Z) :
  0 <= i <= 9999 -> format_d 4 i = fixed_digits 4 i.
Proof.
  intros H.
  assert (Hall : holds_from (Z.to_nat 10000) 0
                   (fun i => str_eqb (format_d 4 i) (fixed_digits 4 i)) = true)
    by (vm_compute; reflexivity).
  apply str_eqb_eq.
  apply (holds_from_spec _ _ 0 Hall i). lia.
Qed.




Lemma map_NoDup_on {A B} (f : A -> B) (l : list A) :
  NoDup l ->
  (forall a b, In a l -> In b l -> f a = f b -> a = b) ->
  NoDup (map f l).
Proof.
  intros Hnd. induction Hnd as [|a l Hna Hnd IH]; intros Hinj; simpl;
    constructor.
  - intros Hin. apply in_map_iff in Hin. destruct Hin as (y & Hy & Hin).
    assert (y = a) by (apply Hinj; simpl; auto). subst. contradiction.
  - apply IH. intros x y Hx Hy. apply Hinj; simpl; auto.
Qed.

Lemma range2_NoDup (a b : Z) : NoDup (range2 a b).
Proof.
  unfold range2. apply map_NoDup_on; [apply seq_NoDup|].
  intros x y _ _ H. lia.
Qed.

Lemma range2_bounds (a b i : Z) : In i (range2 a b) -> a <= i < b.
Proof.
  unfold range2. intros H. apply in_map_iff in H.
  destruct H as (k & <- & Hk). apply in_seq in Hk. lia.
Qed.

(** X2. The branch codes of [gerar_filiais] are pairwise distinct, for
    every requested quantity. *)
Theorem gerar_filiais_distinct (qtd : Z) : NoDup (gerar_filiais qtd).
Proof.
  unfold gerar_filiais. apply map_NoDup_on; [apply range2_NoDup|].
  intros x y Hx Hy E. apply range2_bounds in Hx, Hy.
  apply app_inv_head in E. eapply format_d_injective; eauto; lia.
Qed.

(** *** The phone number *)

(** X3. [gerar_celular] never raises, and the number it builds is
    ["(DD) 9XXXX-XXXX"]: an area code from [DDDS], the digit 9 and two
    groups of exactly four digits, fifteen characters in all. *)
Theorem gerar_celular_shape {G : RandomGen} (g : rng) :
  exists ddd primeira segunda g',
    gerar_celular g
    = inr (lit "(" ++ fixed_digits 2 ddd ++ lit ") 9" ++ fixed_digits 4 primeira
             ++ lit "-" ++ fixed_digits 4 segunda, g')
    /\ In ddd DDDS /\ 0 <= primeira <= 9999 /\ 0 <= segunda <= 9999
    /\ length (lit "(" ++ fixed_digits 2 ddd ++ lit ") 9"
                 ++ fixed_digits 4 primeira ++ lit "-" ++ fixed_digits 4 segunda)
       = 15%nat.
Proof.
  unfold gerar_celular, bind, ret.
  destruct (choice_run DDDS g ltac:(discriminate)) as (ddd & g1 & Hc & Hin).
  rewrite Hc. unfold randint, randrange.
  change (0 <? 9999 + 1 - 0) with true. cbv beta iota zeta.
  pose proof (randbelow_range (9999 + 1 - 0) g1 eq_refl) as H1.
  destruct (randbelow (9999 + 1 - 0) g1) as [a g2].
  cbn [fst] in H1. cbv beta iota.
  pose proof (randbelow_range (9999 + 1 - 0) g2 eq_refl) as H2.
  destruct (randbelow (9999 + 1 - 0) g2) as [b g3].
  cbn [fst] in H2. cbv beta iota.
  exists ddd, (0 + a), (0 + b), g3.
  assert (Hd : format_d 2 ddd = fixed_digits 2 ddd).
  { revert Hin. clear. unfold DDDS. intros Hin.
    repeat (destruct Hin as [<-|Hin]; [reflexivity|]). contradiction. }
  rewrite Hd, !format_d_fixed_digits_4 by lia.
  repeat split; try lia; auto.
Qed.

(** *** Stripping *)

Lemma lstrip_by_suffix (p : N -> bool) (s : str) :
  exists pre, s = pre ++ lstrip_by p s.
Proof.
  induction s as [|c s [pre IH]]; simpl.
  - exists []. reflexivity.
  - destruct (p c).
    + exists (c :: pre). simpl. now rewrite <- IH.
    + exists []. reflexivity.
Qed.

Lemma lstrip_by_head (p : N -> bool) (s : str) (c : N) (r : str) :
  lstrip_by p s = c :: r -> p c = false.
Proof.
  induction s as [|a s IH]; simpl; [discriminate|].
  destruct (p a) eqn:E; [exact IH|]. intros H. inversion H; subst. exact E.
Qed.

Lemma strip_by_infix (p : N -> bool) (s : str) :
  exists pre suf, s = pre ++ strip_by p s ++ suf.
Proof.
  unfold strip_by.
  destruct (lstrip_by_suffix p s) as [pre Hpre].
  destruct (lstrip_by_suffix p (rev (lstrip_by p s))) as [suf Hsuf].
  exists pre, (rev suf). rewrite <- rev_app_distr, <- Hsuf, rev_involutive.
  exact Hpre.
Qed.

Lemma strip_by_head (p : N -> bool) (s : str) (c : N) (r : str) :
  strip_by p s = c :: r -> p c = false.
Proof.
  unfold strip_by. intros H.
  destruct (lstrip_by_suffix p (rev (lstrip_by p s))) as [suf Hsuf].
  apply (f_equal (@rev N)) in Hsuf.
  rewrite rev_involutive, rev_app_distr, H in Hsuf.
  simpl in Hsuf. eapply lstrip_by_head. exact Hsuf.
Qed.

Lemma strip_by_last (p : N -> bool) (s : str) (d : N) :
  strip_by p s <> [] -> p (last (strip_by p s) d) = false.
Proof.
  unfold strip_by.
  destruct (lstrip_by p (rev (lstrip_by p s))) as [|x u] eqn:E;
    [simpl; congruence|].
  intros _. simpl. rewrite last_last. eapply lstrip_by_head. exact E.
Qed.

Lemma strip_by_Forall (P : N -> Prop) (p : N -> bool) (s : str) :
  Forall P s -> Forall P (strip_by p s).
Proof.
  intros H. destruct (strip_by_infix p s) as (pre & suf & E).
  rewrite E in H. apply Forall_app in H. destruct H as [_ H].
  apply Forall_app in H. tauto.
Qed.

(** *** The local part is always usable *)

(** X4. Whatever the name and the Unicode tables, the local part returned
    by [gerar_email_local] is not empty, consists of characters of
    [a-z0-9.-] only, and neither starts nor ends with a dot. *)
Theorem gerar_email_local_wellformed {U : Unicode} (nome : str) :
  gerar_email_local nome <> []
  /\ Forall (fun ch => In ch permitido) (gerar_email_local nome)
  /\ (forall c rest, gerar_email_local nome = c :: rest -> c <> 46%N)
  /\ last (gerar_email_local nome) 0%N <> 46%N.
Proof.
  assert (Hcli : lit "cliente" <> []
                 /\ Forall (fun ch => In ch permitido) (lit "cliente")
                 /\ (forall c rest, lit "cliente" = c :: rest -> c <> 46%N)
                 /\ last (lit "cliente") 0%N <> 46%N).
  { split; [discriminate|]. split.
    - apply Forall_forall. intros x Hx.
      assert (Hall : forallb (fun ch => existsb (N.eqb ch) permitido)
                       (lit "cliente") = true) by reflexivity.
      rewrite forallb_forall in Hall. specialize (Hall x Hx).
      apply existsb_exists in Hall. destruct Hall as (y & Hy & Exy).
      apply N.eqb_eq in Exy. now subst.
    - split; [intros c rest H; inversion H; discriminate | discriminate]. }
  unfold gerar_email_local.
  destruct (filter _ (split _)) as [|t partes] eqn:Ep; [exact Hcli|].
  set (local := if 2 <=? len (t :: partes) then _ else _).
  set (allowed := fun ch => existsb (N.eqb ch) permitido).
  destruct (strip_chars (lit ".") (filter allowed local)) as [|c r] eqn:Es;
    [exact Hcli|].
  rewrite <- Es. unfold strip_chars in *.
  set (dot := fun c => existsb (N.eqb c) (lit ".")) in *.
  assert (Hdot : forall x, dot x = false -> x <> 46%N).
  { intros x Hx ->. discriminate. }
  split; [rewrite Es; discriminate|]. split; [|split].
  - apply strip_by_Forall. apply Forall_forall. intros x Hx.
    apply filter_In in Hx. destruct Hx as [_ Hx]. unfold allowed in Hx.
    apply existsb_exists in Hx. destruct Hx as (y & Hy & Exy).
    apply N.eqb_eq in Exy. now subst.
  - intros c' rest H. apply Hdot. eapply strip_by_head. exact H.
  - apply Hdot. apply strip_by_last. rewrite Es. discriminate.
Qed.

(** *** The customer codes read from a file *)

Lemma strip_clean (s : str) :
  (forall c r, strip s = c :: r -> isspace c = false)
  /\ (strip s <> [] -> isspace (last (strip s) 0%N) = false).
Proof.
  unfold strip. split.
  - intros c r. apply strip_by_head.
  - apply strip_by_last.
Qed.

Lemma customer_codes_clean (reader : DictReader) :
  Forall (fun code => code <> []
                      /\ (forall c r, code = c :: r -> isspace c = false)
                      /\ isspace (last code 0%N) = false)
    (customer_codes reader).
Proof.
  unfold customer_codes.
  destruct (find _ candidatos) as [field|]; [|constructor].
  apply Forall_forall. intros code H.
  apply filter_In in H. destruct H as [Hin Hne].
  apply in_map_iff in Hin. destruct Hin as (row & <- & _).
  assert (Hn : strip match get row field with
                     | Some (Some v) => v
                     | _ => []
                     end <> []).
  { intros E. rewrite E in Hne. discriminate. }
  destruct (strip_clean match get row field with
                        | Some (Some v) => v
                        | _ => []
                        end) as [H1 H2].
  auto.
Qed.

(** X5. The codes returned by [_parse_client_codes_from_upload] are at
    least one, and each is non-empty with no whitespace at either end. *)
Theorem parse_client_codes_clean (reader : DictReader) (codes : list str) :
  _parse_client_codes_from_upload reader = inr codes ->
  codes <> []
  /\ Forall (fun code => code <> []
                         /\ (forall c r, code = c :: r -> isspace c = false)
                         /\ isspace (last code 0%N) = false) codes.
Proof.
  intros H. pose proof (parse_client_codes_spec reader) as Hs.
  pose proof (customer_codes_clean reader) as Hc.
  destruct (customer_codes reader) as [|c cs].
  - destruct Hs as (d & Hs). congruence.
  - rewrite Hs in H. inversion H; subst. split; [discriminate | exact Hc].
Qed.

Lemma parse_client_codes_clean_witness :
  [lit "C00001"; lit "C00002"] <> []
  /\ Forall (fun code => code <> []
                         /\ (forall c r, code = c :: r -> isspace c = false)
                         /\ isspace (last code 0%N) = false)
       [lit "C00001"; lit "C00002"].
Proof.
  apply (parse_client_codes_clean Sample.upload). reflexivity.
Defined.



(** *** The date pool, further *)

(** X7. [gerar_datas] raises [ValueError] when the end date is before the
    start date; otherwise it returns exactly [n] dates (none for a negative
    [n]), each the printed form of a day between the two dates. *)
Theorem gerar_datas_pool {G : RandomGen} {C : Calendar}
    (n inicio fim : Z) (s : rng) :
  (fim < inicio ->
   gerar_datas n inicio fim s = inl (ValueError msg_fim_anterior))
  /\ (inicio <= fim ->
      exists datas s',
        gerar_datas n inicio fim s = inr (datas, s')
        /\ len datas = Z.max 0 n
        /\ Forall (fun x => exists d, inicio <= d <= fim /\ x = strftime d)
             datas).
Proof.
  split.
  - intros H. unfold gerar_datas.
    destruct (fim <? inicio) eqn:E; [reflexivity | lia].
  - intros H.
    destruct (gerar_datas_run n inicio fim s H) as (datas & s' & Hr & Hl & Hf).
    exists datas, s'. split; [exact Hr|]. split; [|exact Hf].
    unfold len. rewrite Hl. lia.
Qed.

Lemma for_each_constant {S X B} (x : B) (xs : list X) :
  forall (acc : list B) (s : S),
    for_each xs (fun _ acc => ret (acc ++ [x])) acc s
    = inr (acc ++ repeat x (length xs), s).
Proof.
  induction xs as [|y xs IH]; intros acc s; simpl.
  - now rewrite app_nil_r.
  - unfold bind, ret at 1. rewrite IH, <- app_assoc. reflexivity.
Qed.

(** X8. When start and end are the same day, [gerar_datas] draws nothing:
    it returns [n] copies of that day and leaves the generator as it
    was, so the draws of the allocation that follows are not shifted. *)
Theorem gerar_datas_single_day {G : RandomGen} {C : Calendar}
    (n d : Z) (s : rng) :
  gerar_datas n d d s = inr (repeat (strftime d) (Z.to_nat n), s).
Proof.
  unfold gerar_datas.
  destruct (d <? d) eqn:E; [lia|].
  replace (d - d) with 0 by lia. cbv zeta.
  change (0 <? 0) with false. cbv iota.
  replace (fun (_ : Z) (datas : list str) =>
             bind (ret 0) (fun offset : Z => ret (datas ++ [strftime (d + offset)])))
    with (fun (_ : Z) (datas : list str) =>
            @ret rng _ (datas ++ [strftime d])).
  - rewrite for_each_constant, range_length. reflexivity.
  - unfold bind, ret. now rewrite Z.add_0_r.
Qed.

(** *** How [montar_compras] fails *)

Lemma enumerate_cons {A} (c : A) (cs : list A) :
  exists rest, enumerate (c :: cs) = (0, c) :: rest.
Proof.
  unfold enumerate, range, len. rewrite Nat2Z.id. simpl length.
  simpl. eexists. reflexivity.
Qed.

Lemma range_pos_cons (n : Z) : 0 < n -> exists rest, range n = 0 :: rest.
Proof.
  intros H. unfold range.
  destruct (Z.to_nat n) as [|k] eqn:E; [lia|].
  simpl. eexists. reflexivity.
Qed.

(** X9. The failures of [montar_compras]: [ValueError] for inverted value
    bounds, before any draw; with ordered bounds and at least one customer,
    [ZeroDivisionError] for an empty date pool and [IndexError] for an
    empty branch pool; without customers, the empty list when no row is
    asked for and [IndexError] when one is. *)
Theorem montar_compras_failures {G : RandomGen}
    (codigos_clientes : list str) (total_linhas : Z) (valor_min valor_max : Q)
    (datas filiais : list str) (s : rng) :
  ((valor_max < valor_min)%Q ->
   montar_compras codigos_clientes total_linhas valor_min valor_max
     datas filiais s
   = inl (ValueError (lit "valor_max deve ser >= valor_min")))
  /\ ((valor_min <= valor_max)%Q ->
      (codigos_clientes <> [] -> datas = [] ->
       montar_compras codigos_clientes total_linhas valor_min valor_max
         datas filiais s = inl ZeroDivisionError)
      /\ (codigos_clientes <> [] -> datas <> [] -> filiais = [] ->
          montar_compras codigos_clientes total_linhas valor_min valor_max
            datas filiais s = inl IndexError)
      /\ (codigos_clientes = [] -> total_linhas <= 0 ->
          montar_compras codigos_clientes total_linhas valor_min valor_max
            datas filiais s = inr ([], s))
      /\ (codigos_clientes = [] -> 0 < total_linhas ->
          montar_compras codigos_clientes total_linhas valor_min valor_max
            datas filiais s = inl IndexError)).
Proof.
  split.
  - intros H. apply Qltb_true in H. unfold montar_compras. now rewrite H.
  - intros Hv. apply Qltb_false in Hv. unfold montar_compras. rewrite Hv.
    split; [|split; [|split]].
    + intros Hc ->. destruct codigos_clientes as [|c cs]; [congruence|].
      destruct (enumerate_cons c cs) as [rest ->]. reflexivity.
    + intros Hc Hd ->. destruct codigos_clientes as [|c cs]; [congruence|].
      destruct (enumerate_cons c cs) as [rest ->].
      destruct (getitem_mod datas 0 Hd) as (k & x & Hm & _ & _ & Hg & _).
      destruct (uniform_run valor_min valor_max s) as (u & s1 & Hu & _).
      cbn [for_each]. unfold bind, lift, escolher, choice, raise.
      rewrite Hm, Hg, Hu. reflexivity.
    + intros -> Ht. unfold bind. cbn [enumerate len length combine range
                                        Z.of_nat Z.to_nat seq map for_each ret].
      replace (Z.max total_linhas 0 - 0) with 0 by lia. reflexivity.
    + intros -> Ht. unfold bind. cbn [enumerate len length combine range
                                        Z.of_nat Z.to_nat seq map for_each ret].
      replace (Z.max total_linhas 0 - 0) with total_linhas by lia.
      destruct (range_pos_cons total_linhas Ht) as [rest ->]. reflexivity.
Qed.

(** *** The order and the origin of the rows *)

Lemma montar_compras_inversion {G : RandomGen}
    (codigos_clientes : list str) (total_linhas : Z) (valor_min valor_max : Q)
    (datas filiais : list str) (s s' : rng) (rows : list compra) :
  codigos_clientes <> [] -> datas <> [] -> filiais <> [] ->
  (valor_min <= valor_max)%Q ->
  montar_compras codigos_clientes total_linhas valor_min valor_max
    datas filiais s = inr (rows, s') ->
  exists cov fill,
    rows = cov ++ fill
    /\ map cod_of cov = codigos_clientes
    /\ Forall (fun r => In (cod_of r) codigos_clientes) fill
    /\ Forall (fun r => In (filial_of r) filiais) rows.
Proof.
  intros Hc Hd Hf Hv Hrun.
  destruct (montar_compras_run codigos_clientes total_linhas valor_min valor_max
              datas filiais Hc Hd Hf Hv s) as (cov & fill & s1 & Hr & Ecov & Efill).
  rewrite Hr in Hrun. inversion Hrun; subst.
  exists cov, fill. split; [reflexivity|].
  split; [eapply enumerate_coverage_codes; exact Ecov|]. split.
  - eapply emitted_Forall; [|exact Efill]. intros x p r HR. apply HR.
  - apply Forall_app. split.
    + eapply emitted_Forall; [|exact Ecov]. intros x p r HR. apply HR.
    + eapply emitted_Forall; [|exact Efill]. intros x p r HR. apply HR.
Qed.

(** X10. The rows of [montar_compras] start with one row per customer, in
    the order of the input list; every later row carries a code of the
    list. *)
Theorem montar_compras_coverage_first {G : RandomGen}
    (codigos_clientes : list str) (total_linhas : Z) (valor_min valor_max : Q)
    (datas filiais : list str) (s s' : rng) (rows : list compra) :
  codigos_clientes <> [] -> datas <> [] -> filiais <> [] ->
  (valor_min <= valor_max)%Q ->
  montar_compras codigos_clientes total_linhas valor_min valor_max
    datas filiais s = inr (rows, s') ->
  map cod_of (firstn (length codigos_clientes) rows) = codigos_clientes
  /\ Forall (fun r => In (cod_of r) codigos_clientes)
       (skipn (length codigos_clientes) rows).
Proof.
  intros Hc Hd Hf Hv Hrun.
  destruct (montar_compras_inversion _ _ _ _ _ _ _ _ _ Hc Hd Hf Hv Hrun)
    as (cov & fill & -> & Hcov & Hfill & _).
  assert (Hl : length cov = length codigos_clientes)
    by (rewrite <- Hcov; now rewrite length_map).
  rewrite <- Hl, firstn_app, skipn_app, Nat.sub_diag, firstn_all, skipn_all.
  simpl. rewrite app_nil_r. auto.
Qed.

Lemma montar_compras_coverage_first_witness :
  exists rows s',
    @montar_compras CounterGen [lit "C00002"; lit "C00001"] 4 10%Q 20%Q
      [lit "2024-01-01"] [lit "F001"] 3 = inr (rows, s')
    /\ map cod_of (firstn (length [lit "C00002"; lit "C00001"]) rows)
       = [lit "C00002"; lit "C00001"]
    /\ Forall (fun r => In (cod_of r) [lit "C00002"; lit "C00001"])
         (skipn (length [lit "C00002"; lit "C00001"]) rows).
Proof.
  eexists _, _. split; [vm_compute; reflexivity|].
  eapply (@montar_compras_coverage_first CounterGen
            [lit "C00002"; lit "C00001"] 4 10%Q 20%Q
            [lit "2024-01-01"] [lit "F001"] 3);
    [discriminate | discriminate | discriminate
    | unfold Qle; simpl; lia | vm_compute; reflexivity].
Defined.

(** X11. Referential integrity of a purchase file: the customer codes of
    the rows returned by [_in_memory_purchases] are exactly the codes read
    from the upload, every row's branch is one of the [max(1, filiais_qtd)]
    codes of [gerar_filiais], and the interpreter's generators are left as
    they were. *)
Theorem in_memory_purchases_references {G : RandomGen} {C : Calendar}
    (MAX_PURCHASES : Z) (reader : DictReader) (rows_total : Z)
    (valor_min valor_max : Q) (inicio_str fim_str : str)
    (filiais_qtd seed : Z) (p p' : process) (rows : list compra) :
  _in_memory_purchases MAX_PURCHASES reader rows_total valor_min valor_max
    inicio_str fim_str filiais_qtd seed p = inr (rows, p') ->
  (forall c, In c (map cod_of rows) <-> In c (customer_codes reader))
  /\ Forall (fun r => exists i, 1 <= i <= Z.max 1 filiais_qtd
                                /\ filial_of r = lit "F" ++ format_d 3 i) rows
  /\ p' = p.
Proof.
  intros Hrun.
  destruct (in_memory_purchases_cases MAX_PURCHASES reader rows_total
              valor_min valor_max inicio_str fim_str filiais_qtd seed p)
    as [(_ & detail & Hr)
       |(_ & inicio & fim & datas & r1 & rows0 & r2
         & _ & _ & _ & Hv & Hc & _ & Hdn & _ & Hm & Hr)];
    rewrite Hr in Hrun; [discriminate|].
  inversion Hrun; subst rows0 p'.
  destruct (montar_compras_inversion _ _ _ _ _ _ _ _ _ Hc Hdn
              (gerar_filiais_nonempty filiais_qtd) Hv Hm)
    as (cov & fill & -> & Hcov & Hfill & Hbr).
  split; [|split; [|reflexivity]].
  - intros c. rewrite map_app, in_app_iff, Hcov. split; [|auto].
    intros [H|H]; [exact H|].
    apply in_map_iff in H. destruct H as (r & <- & Hr_in).
    rewrite Forall_forall in Hfill. auto.
  - eapply Forall_impl; [|exact Hbr]. intros r Hin. cbv beta in Hin.
    unfold gerar_filiais in Hin. apply in_map_iff in Hin.
    destruct Hin as (i & Hi & Hin). apply range2_bounds in Hin.
    exists i. split; [lia | now symmetry].
Qed.

Lemma in_memory_purchases_references_witness :
  exists rows,
    @_in_memory_purchases CounterGen Gregorian.calendar 200000 Sample.upload 5
      10%Q 20%Q (lit "2024-01-01") (lit "2024-12-31") 3 7 Sample.process_a
    = inr (rows, Sample.process_a)
    /\ (forall c, In c (map cod_of rows) <-> In c (customer_codes Sample.upload))
    /\ Forall (fun r => exists i, 1 <= i <= Z.max 1 3
                                  /\ filial_of r = lit "F" ++ format_d 3 i) rows
    /\ Sample.process_a = Sample.process_a.
Proof.
  eexists. split.
  - vm_compute. reflexivity.
  - apply (@in_memory_purchases_references CounterGen Gregorian.calendar
             200000 Sample.upload 5 10%Q 20%Q (lit "2024-01-01")
             (lit "2024-12-31") 3 7 Sample.process_a Sample.process_a).
    vm_compute. reflexivity.
Defined.

(** *** The script and the service *)



(** *** Who passes the access check *)

Lemma str_eqb_true (a b : str) : str_eqb a b = true <-> a = b.
Proof.
  unfold str_eqb. destruct (list_eq_dec N.eq_dec a b); split;
    auto; discriminate.
Qed.

(** X13. [require_basic] lets a request through exactly when the user
    name matches [DBGEN_USER], if that is set and not empty, and the
    password matches [DBGEN_PASSWORD], if that is set and not empty; a
    variable that is unset or empty is not checked at all, so with only
    [DBGEN_USER] set any password passes.  Every refusal is status 401
    with the [WWW-Authenticate: Basic] header. *)
Theorem require_basic_grants_iff (DBGEN_USER DBGEN_PASSWORD : option str)
    (credentials : HTTPBasicCredentials) :
  (require_basic DBGEN_USER DBGEN_PASSWORD credentials = inr tt
   <-> (truthy DBGEN_USER = true -> DBGEN_USER = Some (username credentials))
       /\ (truthy DBGEN_PASSWORD = true ->
           DBGEN_PASSWORD = Some (password credentials)))
  /\ (require_basic DBGEN_USER DBGEN_PASSWORD credentials = inr tt
      \/ require_basic DBGEN_USER DBGEN_PASSWORD credentials = inl unauthorized).
Proof.
  assert (Hd : forall x v, truthy v = true ->
                           (differs x v = false <-> v = Some x)).
  { intros x [y|] Hv; [|discriminate]. unfold differs.
    rewrite negb_false_iff, str_eqb_true. split; congruence. }
  pose proof (Hd (username credentials) DBGEN_USER) as HU.
  pose proof (Hd (password credentials) DBGEN_PASSWORD) as HP.
  unfold require_basic. cbv zeta.
  destruct (truthy DBGEN_USER) eqn:TU, (truthy DBGEN_PASSWORD) eqn:TP;
    cbn [negb andb];
    try specialize (HU eq_refl); try specialize (HP eq_refl).
  - destruct (differs (username credentials) DBGEN_USER) eqn:DU.
    + split; [|right; reflexivity]. split; [discriminate|].
      intros [H1 _]. specialize (H1 eq_refl). apply HU in H1. discriminate.
    + destruct (differs (password credentials) DBGEN_PASSWORD) eqn:DP.
      * split; [|right; reflexivity]. split; [discriminate|].
        intros [_ H2]. specialize (H2 eq_refl). apply HP in H2. discriminate.
      * split; [|left; reflexivity]. split; [|reflexivity].
        intros _. split; intros _; [apply HU | apply HP]; reflexivity.
  - destruct (differs (username credentials) DBGEN_USER) eqn:DU.
    + split; [|right; reflexivity]. split; [discriminate|].
      intros [H1 _]. specialize (H1 eq_refl). apply HU in H1. discriminate.
    + split; [|left; reflexivity]. split; [|reflexivity].
      intros _. split; [intros _; apply HU; reflexivity | discriminate].
  - destruct (differs (password credentials) DBGEN_PASSWORD) eqn:DP.
    + split; [|right; reflexivity]. split; [discriminate|].
      intros [_ H2]. specialize (H2 eq_refl). apply HP in H2. discriminate.
    + split; [|left; reflexivity]. split; [|reflexivity].
      intros _. split; [discriminate | intros _; apply HP; reflexivity].
  - split; [|left; reflexivity]. split; [|reflexivity].
    intros _. split; discriminate.
Qed.

(** *** The rows of a client file *)

Lemma mem_false (x : str) (l : list str) : mem x l = false -> ~ In x l.
Proof.
  unfold mem. intros H Hin.
  assert (existsb (str_eqb x) l = true)
    by (apply existsb_exists; exists x; split; [exact Hin | now apply str_eqb_true]).
  congruence.
Qed.

Section ClientRows.
Context {G : RandomGen} {U : Unicode} {P : Providers}.
Variable MAX_CLIENTS : Z.

Lemma gerar_celular_returns (g : rng) :
  exists c g', gerar_celular g = inr (c, g').
Proof.
  unfold gerar_celular, bind, ret.
  destruct (choice_run DDDS g ltac:(discriminate)) as (ddd & g1 & Hc & _).
  rewrite Hc. unfold randint, randrange.
  change (0 <? 9999 + 1 - 0) with true. cbv beta iota zeta.
  destruct (randbelow (9999 + 1 - 0) g1) as [a g2]. cbv beta iota.
  destruct (randbelow (9999 + 1 - 0) g2) as [b g3]. cbv beta iota.
  eexists _, _. reflexivity.
Qed.

Lemma while_cpf_fresh (fuel : nat) (usados : list str) :
  forall cpf st r,
    while_cpf fuel usados cpf st = Some r ->
    match r with
    | inl _ => False
    | inr (cpf', _) => mem cpf' usados = false
    end.
Proof.
  induction fuel as [|k IH]; intros cpf [g fake] r H; simpl in H.
  - destruct (mem cpf usados) eqn:E; [discriminate|].
    unfold retF in H. inversion H; subst. exact E.
  - destruct (mem cpf usados) eqn:E.
    + unfold bindF, on_random, gerar_cpf in H.
      destruct (cpf_generate_mask g) as [c g1]. eapply IH; eauto.
    + unfold retF in H. inversion H; subst. exact E.
Qed.

Lemma while_email_fresh (fuel : nat) (usados : list str) (local domain : str) :
  forall email n st r,
    endswith (lit "@" ++ domain) email ->
    while_email fuel usados local domain email n st = Some r ->
    match r with
    | inl _ => False
    | inr (email', st') =>
        mem email' usados = false /\ endswith (lit "@" ++ domain) email'
        /\ st' = st
    end.
Proof.
  induction fuel as [|k IH]; intros email n st r He H; simpl in H.
  - destruct (mem email usados) eqn:E; [discriminate|].
    unfold retF in H. inversion H; subst. auto.
  - destruct (mem email usados) eqn:E.
    + eapply IH; [|exact H].
      exists (local ++ format_d 0 n). now rewrite <- app_assoc.
    + unfold retF in H. inversion H; subst. auto.
Qed.

(** One pass of the loop body: it never raises, appends one row of five
    fields and records a CPF and an address that were not used before. *)
Lemma cliente_step (fuel : nat) (domain : str) (i : Z)
    (ucpf uemail : list str) (rows : list (list str)) st r :
  cliente fuel domain i (ucpf, uemail, rows) st = Some r ->
  match r with
  | inl _ => False
  | inr ((ucpf', uemail', rows'), _) =>
      exists nome cel cpf email,
        rows' = rows ++ [[gerar_codigo i; nome; cel; cpf; email]]
        /\ ucpf' = cpf :: ucpf /\ uemail' = email :: uemail
        /\ ~ In cpf ucpf /\ ~ In email uemail
        /\ endswith (lit "@" ++ domain) email
  end.
Proof.
  destruct st as [g fake]. unfold cliente, bindF.
  unfold on_fake at 1. unfold gerar_nome at 1.
  destruct (faker_name fake) as [raw fake1].
  set (nome := strip _).
  unfold on_random at 1. unfold gerar_cpf at 1.
  destruct (cpf_generate_mask g) as [c0 g1].
  destruct (while_cpf fuel ucpf c0 (g1, fake1)) as [[e|[c st2]]|] eqn:E2;
    try discriminate.
  { apply while_cpf_fresh in E2. contradiction. }
  apply while_cpf_fresh in E2.
  destruct (while_email fuel uemail (gerar_email_local nome) domain
              (gerar_email_local nome ++ lit "@" ++ domain) 2 st2)
    as [[e|[em st3]]|] eqn:E3; try discriminate.
  { apply while_email_fresh in E3; [contradiction|].
    exists (gerar_email_local nome). reflexivity. }
  apply while_email_fresh in E3;
    [|exists (gerar_email_local nome); reflexivity].
  destruct E3 as (Hfresh & Hend & ->).
  destruct st2 as [g2 fake2]. unfold on_random.
  destruct (gerar_celular_returns g2) as (cel & g3 & Hcel). rewrite Hcel.
  unfold retF. intros H. inversion H; subst.
  exists nome, cel, c, em. repeat split; auto using mem_false.
Qed.

Lemma for_clientes_rows (fuel : nat) (domain : str) (ids : list Z) :
  forall ucpf uemail rows st r,
    for_clientes fuel domain ids (ucpf, uemail, rows) st = Some r ->
    NoDup ucpf -> NoDup uemail ->
    match r with
    | inl _ => False
    | inr ((ucpf', uemail', rows'), _) =>
        exists new,
          rows' = rows ++ new
          /\ map codigo_of new = map gerar_codigo ids
          /\ Forall (fun row => length row = 5%nat) new
          /\ Forall (fun row => endswith (lit "@" ++ domain) (email_of row)) new
          /\ ucpf' = rev (map cpf_of new) ++ ucpf
          /\ uemail' = rev (map email_of new) ++ uemail
          /\ NoDup ucpf' /\ NoDup uemail'
    end.
Proof.
  induction ids as [|i ids IH]; intros ucpf uemail rows st r H Hnc Hne;
    cbn [for_clientes] in H.
  - unfold retF in H. inversion H; subst.
    exists []. rewrite app_nil_r. repeat split; auto.
  - unfold bindF in H.
    destruct (cliente fuel domain i (ucpf, uemail, rows) st)
      as [[e|[[[u1 e1] r1] st1]]|] eqn:C1; try discriminate.
    { apply cliente_step in C1. contradiction. }
    apply cliente_step in C1.
    destruct C1 as (nome & cel & cpf & email & -> & -> & -> & Hc & He & Hend).
    specialize (IH (cpf :: ucpf) (email :: uemail) _ st1 r H
                  ltac:(constructor; auto) ltac:(constructor; auto)).
    destruct r as [e|[[[u2 e2] r2] st2]]; [exact IH|].
    destruct IH as (new & -> & Hcod & Hlen & Hsuf & -> & -> & N1 & N2).
    exists ([gerar_codigo i; nome; cel; cpf; email] :: new).
    rewrite <- app_assoc. simpl.
    rewrite <- !app_assoc. simpl.
    repeat split; auto.
    + now rewrite Hcod.
Qed.

(** X14. [_in_memory_clients] refuses a count below 1 or above
    [MAX_CLIENTS] with status 400, and raises nothing else: for a count
    within the limits the loop either returns rows or keeps retrying. *)
Theorem in_memory_clients_only_refuses_count (fuel : nat) (count : Z)
    (domain : str) (seed : option Z) (p : process) :
  ((exists e, _in_memory_clients MAX_CLIENTS fuel count domain seed p
              = Some (inl e))
   <-> count < 1 \/ MAX_CLIENTS < count)
  /\ (forall e, _in_memory_clients MAX_CLIENTS fuel count domain seed p
                = Some (inl e) ->
                exists detail, e = HTTPException 400 detail).
Proof.
  unfold _in_memory_clients.
  destruct (count <? 1) eqn:E1.
  { split; [split; [intros _; left; lia | intros _; eexists; reflexivity]|].
    intros e H. inversion H. eexists; reflexivity. }
  destruct (MAX_CLIENTS <? count) eqn:E2.
  { split; [split; [intros _; right; lia | intros _; eexists; reflexivity]|].
    intros e H. inversion H. eexists; reflexivity. }
  destruct (for_clientes fuel domain _ _ _) as [[e|[[[u1 e1] r1] [g1 f1]]]|] eqn:F.
  - apply for_clientes_rows in F; [contradiction | constructor | constructor].
  - split; [split; [intros (e & H); discriminate | lia]|].
    intros e H. discriminate.
  - split; [split; [intros (e & H); discriminate | lia]|].
    intros e H. discriminate.
Qed.

(** X15. The rows returned by [_in_memory_clients] are [count] rows of
    five fields whose first field runs through the codes of 1, 2, ...,
    [count] in order, all distinct. *)
Theorem in_memory_clients_codes (fuel : nat) (count : Z) (domain : str)
    (seed : option Z) (p p' : process) (rows : list (list str)) :
  _in_memory_clients MAX_CLIENTS fuel count domain seed p
    = Some (inr (rows, p')) ->
  len rows = count
  /\ map codigo_of rows = map gerar_codigo (range2 1 (count + 1))
  /\ NoDup (map codigo_of rows)
  /\ Forall (fun row => length row = 5%nat) rows.
Proof.
  unfold _in_memory_clients.
  destruct (count <? 1) eqn:E1; [discriminate|].
  destruct (MAX_CLIENTS <? count) eqn:E2; [discriminate|].
  destruct (for_clientes fuel domain _ _ _) as [[e|[[[u1 e1] r1] [g1 f1]]]|] eqn:F;
    try discriminate.
  intros H. inversion H; subst.
  apply for_clientes_rows in F; [|constructor|constructor].
  destruct F as (new & -> & Hcod & Hlen & _). simpl.
  split; [|split; [exact Hcod|split; [|exact Hlen]]].
  - unfold len. rewrite <- (length_map codigo_of), Hcod, length_map,
      range2_length. lia.
  - rewrite Hcod. apply map_NoDup_on; [apply range2_NoDup|].
    intros x y Hx Hy E. apply range2_bounds in Hx, Hy.
    unfold gerar_codigo in E. apply app_inv_head in E.
    eapply format_d_injective; eauto; lia.
Qed.

(** X16. Within one file of [_in_memory_clients] no two rows share a CPF
    and no two rows share an e-mail address, and every address ends with
    ["@"] and the requested domain. *)
Theorem in_memory_clients_unique (fuel : nat) (count : Z) (domain : str)
    (seed : option Z) (p p' : process) (rows : list (list str)) :
  _in_memory_clients MAX_CLIENTS fuel count domain seed p
    = Some (inr (rows, p')) ->
  NoDup (map cpf_of rows)
  /\ NoDup (map email_of rows)
  /\ Forall (fun row => endswith (lit "@" ++ domain) (email_of row)) rows.
Proof.
  unfold _in_memory_clients.
  destruct (count <? 1) eqn:E1; [discriminate|].
  destruct (MAX_CLIENTS <? count) eqn:E2; [discriminate|].
  destruct (for_clientes fuel domain _ _ _) as [[e|[[[u1 e1] r1] [g1 f1]]]|] eqn:F;
    try discriminate.
  intros H. inversion H; subst.
  apply for_clientes_rows in F; [|constructor|constructor].
  destruct F as (new & -> & _ & _ & Hsuf & -> & -> & N1 & N2). simpl.
  rewrite !app_nil_r in N1, N2.
  apply NoDup_rev in N1, N2. rewrite rev_involutive in N1, N2. auto.
Qed.
End ClientRows.

Lemma in_memory_clients_codes_witness :
  exists rows p',
    @_in_memory_clients CounterGen Latin1.unicode Sample.providers 50000 10 3
      (lit "example.com") (Some 42) Sample.process_a = Some (inr (rows, p'))
    /\ len rows = 3
    /\ map codigo_of rows = map gerar_codigo (range2 1 (3 + 1))
    /\ NoDup (map codigo_of rows)
    /\ Forall (fun row => length row = 5%nat) rows.
Proof.
  eexists _, _. split; [vm_compute; reflexivity|].
  eapply (@in_memory_clients_codes CounterGen Latin1.unicode Sample.providers
            50000 10 3 (lit "example.com") (Some 42) Sample.process_a).
  vm_compute. reflexivity.
Defined.

Lemma in_memory_clients_unique_witness :
  exists rows p',
    @_in_memory_clients CounterGen Latin1.unicode Sample.providers 50000 10 6
      (lit "example.com") None Sample.process_a = Some (inr (rows, p'))
    /\ NoDup (map cpf_of rows)
    /\ NoDup (map email_of rows)
    /\ Forall (fun row => endswith (lit "@" ++ lit "example.com") (email_of row))
         rows.
Proof.
  eexists _, _. split; [vm_compute; reflexivity|].
  eapply (@in_memory_clients_unique CounterGen Latin1.unicode Sample.providers
            50000 10 6 (lit "example.com") None Sample.process_a).
  vm_compute. reflexivity.
Defined.

(** *** What the seed of the client generator does fix *)

Section SeededClients.
Context {G : RandomGen} {U : Unicode} {P : Providers}.
Variable MAX_CLIENTS : Z.

Lemma while_email_anywhere (fuel : nat) (usados : list str)
    (local domain : str) :
  forall email n st email' st',
    while_email fuel usados local domain email n st = Some (inr (email', st')) ->
    forall st2,
      while_email fuel usados local domain email n st2
      = Some (inr (email', st2)).
Proof.
  induction fuel as [|k IH]; intros email n st email' st' H st2;
    cbn [while_email] in *.
  - destruct (mem email usados); [discriminate|].
    unfold retF in *. inversion H; subst. reflexivity.
  - destruct (mem email usados); [eapply IH; exact H|].
    unfold retF in *. inversion H; subst. reflexivity.
Qed.

(** One record: the name, the address and the new state of [fake] come
    from the old state of [fake] and the addresses used so far. *)
Lemma cliente_nome_email (fuel : nat) (domain : str) (i : Z)
    ucpf uemail rows g fake ucpf' uemail' rows' g' fake' :
  cliente fuel domain i (ucpf, uemail, rows) (g, fake)
    = Some (inr ((ucpf', uemail', rows'), (g', fake'))) ->
  exists nome email row,
    gerar_nome fake = inr (nome, fake')
    /\ (forall st, while_email fuel uemail (gerar_email_local nome) domain
                     (gerar_email_local nome ++ lit "@" ++ domain) 2 st
                   = Some (inr (email, st)))
    /\ uemail' = email :: uemail
    /\ rows' = rows ++ [row] /\ nome_of row = nome /\ email_of row = email.
Proof.
  unfold cliente, bindF.
  unfold on_fake at 1. unfold gerar_nome at 1.
  destruct (faker_name fake) as [raw fake1] eqn:En.
  set (nome := strip _).
  destruct (on_random gerar_cpf (g, fake1)) as [[e|[c [g1 f1]]]|] eqn:E1;
    try discriminate.
  apply on_random_fake in E1. subst f1.
  destruct (while_cpf fuel ucpf c (g1, fake1)) as [[e|[c' [g2 f2]]]|] eqn:E2;
    try discriminate.
  apply while_cpf_fake in E2. subst f2.
  destruct (while_email fuel uemail _ domain _ 2 (g2, fake1))
    as [[e|[em st3]]|] eqn:E3; try discriminate.
  pose proof (while_email_anywhere _ _ _ _ _ _ _ _ _ E3) as Hany.
  apply while_email_state in E3. subst st3.
  destruct (on_random gerar_celular (g2, fake1)) as [[e|[cel [g4 f4]]]|] eqn:E4;
    try discriminate.
  apply on_random_fake in E4. subst f4.
  unfold retF. intros H. inversion H; subst.
  exists nome, em, [gerar_codigo i; nome; cel; c'; em].
  repeat split; auto. unfold gerar_nome. now rewrite En.
Qed.

Lemma for_clientes_nomes_emails (fuel : nat) (domain : str) (ids : list Z) :
  forall ucpf1 ucpf2 uemail rows1 rows2 g1 g2 fake
         ucpf1' uemail1' rows1' st1 ucpf2' uemail2' rows2' st2,
    for_clientes fuel domain ids (ucpf1, uemail, rows1) (g1, fake)
      = Some (inr ((ucpf1', uemail1', rows1'), st1)) ->
    for_clientes fuel domain ids (ucpf2, uemail, rows2) (g2, fake)
      = Some (inr ((ucpf2', uemail2', rows2'), st2)) ->
    map nome_of rows1 = map nome_of rows2 ->
    map email_of rows1 = map email_of rows2 ->
    map nome_of rows1' = map nome_of rows2'
    /\ map email_of rows1' = map email_of rows2'.
Proof.
  induction ids as [|i ids IH];
    intros ucpf1 ucpf2 uemail rows1 rows2 g1 g2 fake
           ucpf1' uemail1' rows1' st1 ucpf2' uemail2' rows2' st2
           H1 H2 Hn He; cbn [for_clientes] in H1, H2.
  - unfold retF in H1, H2. inversion H1; inversion H2; subst. auto.
  - unfold bindF in H1, H2.
    destruct (cliente fuel domain i (ucpf1, uemail, rows1) (g1, fake))
      as [[e|[[[u1 e1] r1] [g1' f1']]]|] eqn:C1; try discriminate.
    destruct (cliente fuel domain i (ucpf2, uemail, rows2) (g2, fake))
      as [[e|[[[u2 e2] r2] [g2' f2']]]|] eqn:C2; try discriminate.
    apply cliente_nome_email in C1, C2.
    destruct C1 as (n1 & em1 & row1 & N1 & W1 & -> & -> & Hn1 & He1).
    destruct C2 as (n2 & em2 & row2 & N2 & W2 & -> & -> & Hn2 & He2).
    rewrite N1 in N2.
    assert (Hnn : n1 = n2) by congruence.
    assert (Hff : f1' = f2') by congruence.
    clear N1 N2. rewrite <- Hnn in W2. rewrite <- Hff in H2.
    pose proof (W1 (g1, fake)) as W1'. rewrite (W2 (g1, fake)) in W1'.
    assert (Hee : em1 = em2) by congruence.
    rewrite <- Hee in H2.
    eapply IH; [exact H1 | exact H2 | |];
      rewrite !map_app; simpl; congruence.
Qed.

(** X17. With a seed, the names and the e-mail addresses of the rows of
    [_in_memory_clients] are the same from every state of the
    interpreter's generators: they depend on the seed, the count and the
    domain alone. *)
Theorem in_memory_clients_seed_fixes_names_and_emails (fuel : nat)
    (count : Z) (domain : str) (seed : Z) (p1 p2 p1' p2' : process)
    (rows1 rows2 : list (list str)) :
  _in_memory_clients MAX_CLIENTS fuel count domain (Some seed) p1
    = Some (inr (rows1, p1')) ->
  _in_memory_clients MAX_CLIENTS fuel count domain (Some seed) p2
    = Some (inr (rows2, p2')) ->
  map nome_of rows1 = map nome_of rows2
  /\ map email_of rows1 = map email_of rows2.
Proof.
  unfold _in_memory_clients.
  destruct (count <? 1); [discriminate|].
  destruct (MAX_CLIENTS <? count); [discriminate|].
  destruct (for_clientes fuel domain _ _ (global_random p1, Random seed))
    as [[e|[[[u1 e1] r1] [g1 f1]]]|] eqn:F1; try discriminate.
  destruct (for_clientes fuel domain _ _ (global_random p2, Random seed))
    as [[e|[[[u2 e2] r2] [g2 f2]]]|] eqn:F2; try discriminate.
  intros H1 H2. inversion H1; inversion H2; subst.
  eapply for_clientes_nomes_emails; [exact F1 | exact F2 | reflexivity..].
Qed.
End SeededClients.

Lemma in_memory_clients_seed_fixes_names_and_emails_witness :
  exists rows1 p1' rows2 p2',
    @_in_memory_clients CounterGen Latin1.unicode Sample.providers 50000 10 3
      (lit "example.com") (Some 42) Sample.process_a = Some (inr (rows1, p1'))
    /\ @_in_memory_clients CounterGen Latin1.unicode Sample.providers 50000 10 3
         (lit "example.com") (Some 42) Sample.process_b = Some (inr (rows2, p2'))
    /\ map nome_of rows1 = map nome_of rows2
    /\ map email_of rows1 = map email_of rows2.
Proof.
  eexists _, _, _, _.
  split; [vm_compute; reflexivity|]. split; [vm_compute; reflexivity|].
  eapply (@in_memory_clients_seed_fixes_names_and_emails CounterGen
            Latin1.unicode Sample.providers 50000 10 3 (lit "example.com") 42
            Sample.process_a Sample.process_b);
    vm_compute; reflexivity.
Defined.
